(** * sylkrtc.js: the Call session of src/lib/call.js

    A shallow embedding of the [Call] class.  The object's fields are a
    record, its methods are computations in a small state-and-exception
    monad, and everything the class does to the outside world (listener
    notifications, signaling requests, calls into the RTCPeerConnection
    engine, timers) is appended to a trace of effects.  Callbacks handed
    to the engine, to the account's request channel or to [setTimeout]
    are kept as pending tasks; the event loop settles them one at a
    time, each handler running to completion. *)

From Stdlib Require Import String Ascii List ZArith Bool Lia.
Import ListNotations.

Open Scope string_scope.
Open Scope Z_scope.
Open Scope list_scope.

(** ** JavaScript values *)

(** A reference that is [null], [undefined] or an object.  The source
    tells the first two apart ([x !== null] against [if (x)]). *)
Inductive js (A : Type) : Type :=
| null
| undefined
| obj (a : A).
Arguments null {A}.
Arguments undefined {A}.
Arguments obj {A} a.

Definition is_null {A : Type} (v : js A) : bool :=
  match v with null => true | _ => false end.

(** [xs[0]]: the first element, [undefined] past the end. *)
Definition first {A : Type} (xs : list A) : js A :=
  match xs with
  | [] => undefined
  | x :: _ => obj x
  end.

(** [a === s] for a field that is [null] or a string. *)
Definition strict_eq (a : option string) (s : string) : bool :=
  match a with
  | Some x => String.eqb x s
  | None => false
  end.

(** ['' + a]: string conversion of a field that is [null] or a string. *)
Definition to_display (a : option string) : string :=
  match a with
  | Some x => x
  | None => "null"
  end.

(** A parameter with a default value: [undefined] takes the default. *)
Definition or_default (v : option Z) (d : Z) : Z :=
  match v with
  | Some x => x
  | None => d
  end.

(** A string is falsy exactly when it is empty. *)
Definition truthy_string (s : string) : bool := negb (String.eqb s "").

(** [s.indexOf(c)] for a one-character pattern, searching from
    position [from]; -1 when [c] does not occur. *)
Fixpoint indexOf_from (c : ascii) (s : string) (from : Z) : Z :=
  match s with
  | EmptyString => -1
  | String a rest =>
      if Ascii.eqb a c then from else indexOf_from c rest (from + 1)
  end.

Definition indexOf (s : string) (c : ascii) : Z := indexOf_from c s 0.

(** ** Data of the media engine and of the signaling channel *)

Record MediaStreamTrack : Type := { track_id : string }.

Record MediaStream : Type := {
  stream_id : string;
  audioTracks : list MediaStreamTrack;
  videoTracks : list MediaStreamTrack
}.

Record RTCConfiguration : Type := { iceServers : list string }.

(** The engine object, as far as the class looks into it: the streams
    it enumerates.  [pc_serial] tells engine objects apart. *)
Record RTCPeerConnection : Type := {
  pc_serial : nat;
  pc_config : RTCConfiguration;
  localStreams : list MediaStream;
  remoteStreams : list MediaStream
}.

Record RTCDTMFSender : Type := { sender_track : MediaStreamTrack }.

Definition RTCIceCandidate : Type := string.

(** Modelled from the spec: utils.mungeSdp is not part of the sources;
    the description handed to the engine records whether the text went
    through it. *)
Inductive Sdp : Type :=
| raw (text : option string)
| munged (text : option string).

Record RTCSessionDescription : Type := { sd_type : string; sd_sdp : Sdp }.

(** Modelled from the spec: utils.Identity is not part of the sources;
    an identity is a pair of a uri and an optional display name. *)
Record Identity : Type := { uri : string; displayName : option string }.

Record Account : Type := {
  account_id : string;
  account_displayName : option string
}.

Record Options : Type := {
  localStream : option MediaStream;
  pcConfig : option RTCConfiguration;
  offerOptions : option string;
  answerOptions : option string
}.

(** [options = {}] *)
Definition no_options : Options :=
  {| localStream := None; pcConfig := None;
     offerOptions := None; answerOptions := None |}.

Record Caller : Type := { caller_uri : string; display_name : option string }.

Record Message : Type := {
  event : string;
  state : option string;
  sdp : option string;
  reason : option string
}.

(** The four signaling envelopes the class builds. *)
Inductive Request : Type :=
| session_create (account : string) (session : option string)
    (to : string) (offer : option string)
| session_terminate (session : option string)
| session_trickle (session : option string) (candidates : list RTCIceCandidate)
| session_answer (session : option string) (answer_sdp : option string).

Definition sylkrtc (r : Request) : string :=
  match r with
  | session_create _ _ _ _ => "session-create"
  | session_terminate _ => "session-terminate"
  | session_trickle _ _ => "session-trickle"
  | session_answer _ _ => "session-answer"
  end.

(** ** Observable effects *)

(** Third argument of a stateChanged notification: [{}] or
    [{reason: r}]. *)
Inductive StateData : Type :=
| no_data
| with_reason (r : option string).

Inductive Notification : Type :=
| localStreamAdded (s : MediaStream)
| streamAdded (s : MediaStream)
| stateChanged (oldState newState : option string) (data : StateData)
| dtmfToneSent (tone : string).

Inductive Effect : Type :=
| Emit (n : Notification)
| SendRequest (req : Request)
| CallsDelete (id : option string)
| NewRTCPeerConnection (serial : nat) (cfg : RTCConfiguration)
| PcAddEventListener (type : string)
| PcAddStream (s : MediaStream)
| PcSetRemoteDescription (d : RTCSessionDescription)
| CreateLocalSdp (type : string) (opts : option string)
| CloseMediaStream (s : MediaStream)
| PcClose (serial : nat)
| PcCreateDTMFSender (track : js MediaStreamTrack)
| DtmfAddEventListener
| DtmfRemoveEventListener
| InsertDTMF (tones : string) (duration interToneGap : Z)
| SetTimeout (delay : Z).

(** ** The object *)

Record Call : Type := {
  _account : Account;
  _id : option string;
  _direction : option string;
  _pc : option RTCPeerConnection;
  _state : option string;
  _terminated : bool;
  _incomingSdp : option string;
  _localIdentity : Identity;
  _remoteIdentity : option Identity;
  _dtmfSender : option RTCDTMFSender;
  _delay_established : bool;
  _setup_in_progress : bool
}.

(** [constructor(account)] *)
Definition constructor (account : Account) : Call :=
  {| _account := account;
     _id := None;
     _direction := None;
     _pc := None;
     _state := None;
     _terminated := false;
     _incomingSdp := None;
     _localIdentity :=
       {| uri := account_id account;
          displayName := account_displayName account |};
     _remoteIdentity := None;
     _dtmfSender := None;
     _delay_established := false;
     _setup_in_progress := false |}.

Definition set_id (v : option string) (c : Call) : Call :=
  {| _account := _account c; _id := v; _direction := _direction c;
     _pc := _pc c; _state := _state c; _terminated := _terminated c;
     _incomingSdp := _incomingSdp c; _localIdentity := _localIdentity c;
     _remoteIdentity := _remoteIdentity c; _dtmfSender := _dtmfSender c;
     _delay_established := _delay_established c;
     _setup_in_progress := _setup_in_progress c |}.

Definition set_direction (v : option string) (c : Call) : Call :=
  {| _account := _account c; _id := _id c; _direction := v;
     _pc := _pc c; _state := _state c; _terminated := _terminated c;
     _incomingSdp := _incomingSdp c; _localIdentity := _localIdentity c;
     _remoteIdentity := _remoteIdentity c; _dtmfSender := _dtmfSender c;
     _delay_established := _delay_established c;
     _setup_in_progress := _setup_in_progress c |}.

Definition set_pc (v : option RTCPeerConnection) (c : Call) : Call :=
  {| _account := _account c; _id := _id c; _direction := _direction c;
     _pc := v; _state := _state c; _terminated := _terminated c;
     _incomingSdp := _incomingSdp c; _localIdentity := _localIdentity c;
     _remoteIdentity := _remoteIdentity c; _dtmfSender := _dtmfSender c;
     _delay_established := _delay_established c;
     _setup_in_progress := _setup_in_progress c |}.

Definition set_state (v : option string) (c : Call) : Call :=
  {| _account := _account c; _id := _id c; _direction := _direction c;
     _pc := _pc c; _state := v; _terminated := _terminated c;
     _incomingSdp := _incomingSdp c; _localIdentity := _localIdentity c;
     _remoteIdentity := _remoteIdentity c; _dtmfSender := _dtmfSender c;
     _delay_established := _delay_established c;
     _setup_in_progress := _setup_in_progress c |}.

Definition set_terminated (v : bool) (c : Call) : Call :=
  {| _account := _account c; _id := _id c; _direction := _direction c;
     _pc := _pc c; _state := _state c; _terminated := v;
     _incomingSdp := _incomingSdp c; _localIdentity := _localIdentity c;
     _remoteIdentity := _remoteIdentity c; _dtmfSender := _dtmfSender c;
     _delay_established := _delay_established c;
     _setup_in_progress := _setup_in_progress c |}.

Definition set_incomingSdp (v : option string) (c : Call) : Call :=
  {| _account := _account c; _id := _id c; _direction := _direction c;
     _pc := _pc c; _state := _state c; _terminated := _terminated c;
     _incomingSdp := v; _localIdentity := _localIdentity c;
     _remoteIdentity := _remoteIdentity c; _dtmfSender := _dtmfSender c;
     _delay_established := _delay_established c;
     _setup_in_progress := _setup_in_progress c |}.

Definition set_remoteIdentity (v : option Identity) (c : Call) : Call :=
  {| _account := _account c; _id := _id c; _direction := _direction c;
     _pc := _pc c; _state := _state c; _terminated := _terminated c;
     _incomingSdp := _incomingSdp c; _localIdentity := _localIdentity c;
     _remoteIdentity := v; _dtmfSender := _dtmfSender c;
     _delay_established := _delay_established c;
     _setup_in_progress := _setup_in_progress c |}.

Definition set_dtmfSender (v : option RTCDTMFSender) (c : Call) : Call :=
  {| _account := _account c; _id := _id c; _direction := _direction c;
     _pc := _pc c; _state := _state c; _terminated := _terminated c;
     _incomingSdp := _incomingSdp c; _localIdentity := _localIdentity c;
     _remoteIdentity := _remoteIdentity c; _dtmfSender := v;
     _delay_established := _delay_established c;
     _setup_in_progress := _setup_in_progress c |}.

Definition set_delay_established (v : bool) (c : Call) : Call :=
  {| _account := _account c; _id := _id c; _direction := _direction c;
     _pc := _pc c; _state := _state c; _terminated := _terminated c;
     _incomingSdp := _incomingSdp c; _localIdentity := _localIdentity c;
     _remoteIdentity := _remoteIdentity c; _dtmfSender := _dtmfSender c;
     _delay_established := v;
     _setup_in_progress := _setup_in_progress c |}.

Definition set_setup_in_progress (v : bool) (c : Call) : Call :=
  {| _account := _account c; _id := _id c; _direction := _direction c;
     _pc := _pc c; _state := _state c; _terminated := _terminated c;
     _incomingSdp := _incomingSdp c; _localIdentity := _localIdentity c;
     _remoteIdentity := _remoteIdentity c; _dtmfSender := _dtmfSender c;
     _delay_established := _delay_established c;
     _setup_in_progress := v |}.

(** ** Pending callbacks *)

(** One constructor per place where the class hands a callback to the
    outside; the arguments are what the closure captured. *)
Inductive Task : Type :=
| SetRemoteDescription_offer (answerOpts : option string)
| CreateLocalSdp_answer
| CreateLocalSdp_offer (to : string)
| SetRemoteDescription_answer
| Request_call
| Request_terminate
| Request_trickle
| Request_answer
| Timeout (due : Z).

(** How a pending callback is invoked: the success side (with the
    value, if any) or the failure side with the error. *)
Inductive Outcome : Type :=
| fulfilled (value : option string)
| rejected (error : string).

(** ** The world a handler runs in *)

Record Env : Type := {
  this : Call;
  trace : list Effect;
  pending : list Task;
  clock : Z;
  engines : nat
}.

Definition with_this (c : Call) (e : Env) : Env :=
  {| this := c; trace := trace e; pending := pending e;
     clock := clock e; engines := engines e |}.

Definition with_trace (t : list Effect) (e : Env) : Env :=
  {| this := this e; trace := t; pending := pending e;
     clock := clock e; engines := engines e |}.

Definition with_pending (p : list Task) (e : Env) : Env :=
  {| this := this e; trace := trace e; pending := p;
     clock := clock e; engines := engines e |}.

Definition with_clock (t : Z) (e : Env) : Env :=
  {| this := this e; trace := trace e; pending := pending e;
     clock := t; engines := engines e |}.

Definition with_engines (n : nat) (e : Env) : Env :=
  {| this := this e; trace := trace e; pending := pending e;
     clock := clock e; engines := n |}.

(** A fresh world around a newly constructed call. *)
Definition boot (account : Account) : Env :=
  {| this := constructor account; trace := []; pending := [];
     clock := 0; engines := 0%nat |}.

(** ** The monad: state that survives a throw *)

Inductive completion (A : Type) : Type :=
| Normal (a : A) (e : Env)
| Throw (err : string) (e : Env).
Arguments Normal {A} a e.
Arguments Throw {A} err e.

Definition env_of {A : Type} (r : completion A) : Env :=
  match r with
  | Normal _ e => e
  | Throw _ e => e
  end.

Definition M (A : Type) : Type := Env -> completion A.

Definition ret {A : Type} (a : A) : M A := fun e => Normal a e.

Definition bind {A B : Type} (m : M A) (k : A -> M B) : M B :=
  fun e =>
    match m e with
    | Normal a e' => k a e'
    | Throw err e' => Throw err e'
    end.

Definition throw {A : Type} (err : string) : M A := fun e => Throw err e.

Declare Scope js_scope.
Delimit Scope js_scope with js.
Notation "x <- m ;; k" := (bind m (fun x => k))
  (at level 61, m at next level, right associativity) : js_scope.
Notation "m ;; k" := (bind m (fun _ => k))
  (at level 61, right associativity) : js_scope.
Open Scope js_scope.

(** [this.f] *)
Definition read {A : Type} (f : Call -> A) : M A :=
  fun e => Normal (f (this e)) e.

(** [this.f = v] *)
Definition write (upd : Call -> Call) : M unit :=
  fun e => Normal tt (with_this (upd (this e)) e).

Definition perform (x : Effect) : M unit :=
  fun e => Normal tt (with_trace (trace e ++ [x]) e).

Definition defer (t : Task) : M unit :=
  fun e => Normal tt (with_pending (pending e ++ [t]) e).

Definition now : M Z := fun e => Normal (clock e) e.

(** [this.emit(...)] *)
Definition emit (n : Notification) : M unit := perform (Emit n).

(** [for (let x of xs) body(x)] *)
Fixpoint for_of {A : Type} (xs : list A) (body : A -> M unit) : M unit :=
  match xs with
  | [] => ret tt
  | x :: rest => body x ;; for_of rest body
  end.

(** [this._pc.method(...)]: a TypeError when [_pc] is null. *)
Definition on_pc {A : Type} (k : RTCPeerConnection -> M A) : M A :=
  pc <- read _pc ;;
  match pc with
  | Some p => k p
  | None => throw "TypeError: this._pc is null"
  end.

(** [try { m } catch (e) { h(e) }] *)
Definition try_catch {A : Type} (m : M A) (h : string -> M A) : M A :=
  fun e =>
    match m e with
    | Normal a e' => Normal a e'
    | Throw err e' => h err e'
    end.

(** ** Calls into the engine and the channel *)

(** [new RTCPeerConnection(pcConfig)] *)
Definition new_RTCPeerConnection (cfg : RTCConfiguration) : M RTCPeerConnection :=
  fun e =>
    let n := engines e in
    Normal {| pc_serial := n; pc_config := cfg;
              localStreams := []; remoteStreams := [] |}
           (with_engines (S n) (with_trace (trace e ++ [NewRTCPeerConnection n cfg]) e)).

(** [this._pc.addStream(stream)]: the engine lists the stream among its
    local streams from now on. *)
Definition pc_addStream (s : MediaStream) : M unit :=
  on_pc (fun p =>
    write (set_pc (Some {| pc_serial := pc_serial p; pc_config := pc_config p;
                           localStreams := localStreams p ++ [s];
                           remoteStreams := remoteStreams p |})) ;;
    perform (PcAddStream s)).

(** The engine's side of an [addstream] event: the stream is among
    the remote streams of the call's RTCPeerConnection from now on. *)
Definition engine_adds_stream (s : MediaStream) : M unit :=
  pc <- read _pc ;;
  match pc with
  | Some p =>
      write (set_pc (Some {| pc_serial := pc_serial p; pc_config := pc_config p;
                             localStreams := localStreams p;
                             remoteStreams := remoteStreams p ++ [s] |}))
  | None => ret tt
  end.

(** [this._pc.setRemoteDescription(desc, success, failure)] *)
Definition pc_setRemoteDescription (d : RTCSessionDescription) (callbacks : Task)
  : M unit :=
  on_pc (fun _ => perform (PcSetRemoteDescription d) ;; defer callbacks).

(** Modelled from the spec: utils.createLocalSdp is not part of the
    sources; it asks the engine for a local offer or answer description
    and returns a promise that is fulfilled with the description or
    rejected with a reason. *)
Definition createLocalSdp (type : string) (opts : option string) (handlers : Task)
  : M unit :=
  perform (CreateLocalSdp type opts) ;; defer handlers.

(** Modelled from the spec: utils.closeMediaStream is not part of the
    sources; it releases the tracks of a stream. *)
Definition closeMediaStream (s : MediaStream) : M unit :=
  perform (CloseMediaStream s).

(** [x.getAudioTracks()] on what [streams[0]] gave. *)
Definition getAudioTracks (s : js MediaStream) : M (list MediaStreamTrack) :=
  match s with
  | obj st => ret (audioTracks st)
  | _ => throw "TypeError: cannot read getAudioTracks"
  end.

(** [setTimeout(callback, delay)] *)
Definition setTimeout (delay : Z) : M unit :=
  t <- now ;;
  perform (SetTimeout delay) ;;
  defer (Timeout (t + delay)).

(** ** Methods of the class *)

Definition getLocalStreams : M (list MediaStream) :=
  pc <- read _pc ;;
  match pc with
  | Some p => ret (localStreams p)
  | None => ret []
  end.

Definition getRemoteStreams : M (list MediaStream) :=
  pc <- read _pc ;;
  match pc with
  | Some p => ret (remoteStreams p)
  | None => ret []
  end.

Definition _sendRequest (req : Request) (cb : Task) : M unit :=
  perform (SendRequest req) ;; defer cb.

Definition _initRTCPeerConnection (cfg : RTCConfiguration) : M unit :=
  pc <- read _pc ;;
  match pc with
  | Some _ => throw "RTCPeerConnection already initialized"
  | None =>
      p <- new_RTCPeerConnection cfg ;;
      write (set_pc (Some p)) ;;
      perform (PcAddEventListener "addstream") ;;
      perform (PcAddEventListener "icecandidate")
  end.

Definition _sendCall (to : string) (offer : option string) : M unit :=
  acc <- read _account ;;
  id <- read _id ;;
  _sendRequest (session_create (account_id acc) id to offer) Request_call.

Definition _sendTrickle (candidate : option RTCIceCandidate) : M unit :=
  id <- read _id ;;
  _sendRequest
    (session_trickle id
       match candidate with
       | Some c => [c]
       | None => []
       end)
    Request_trickle.

Definition _sendAnswer (answer_sdp : option string) : M unit :=
  id <- read _id ;;
  _sendRequest (session_answer id answer_sdp) Request_answer.

Definition _sendTerminate : M unit :=
  id <- read _id ;;
  _sendRequest (session_terminate id) Request_terminate ;;
  setTimeout 150.

Definition terminate : M unit :=
  t <- read _terminated ;;
  if t then ret tt else _sendTerminate.

Definition _closeRTCPeerConnection : M unit :=
  pc <- read _pc ;;
  match pc with
  | Some p =>
      for_of (localStreams p) closeMediaStream ;;
      for_of (remoteStreams p) closeMediaStream ;;
      perform (PcClose (pc_serial p)) ;;
      write (set_pc None) ;;
      d <- read _dtmfSender ;;
      match d with
      | Some _ => perform DtmfRemoveEventListener ;; write (set_dtmfSender None)
      | None => ret tt
      end
  | None => ret tt
  end.

Definition _localTerminate (error : string) : M unit :=
  t <- read _terminated ;;
  if t then ret tt
  else
    id <- read _id ;;
    perform (CallsDelete id) ;;
    write (set_terminated true) ;;
    oldState <- read _state ;;
    let newState := Some "terminated" in
    let data := with_reason (Some error) in
    _closeRTCPeerConnection ;;
    emit (stateChanged oldState newState data).

Definition answer (options : Options) : M unit :=
  st <- read _state ;;
  if negb (strict_eq st "incoming")
  then throw ("Call is not in the incoming state: " ++ to_display st)%string
  else
    match localStream options with
    | None => throw "Missing localStream"
    | Some stream =>
        let cfg :=
          match pcConfig options with
          | Some c => c
          | None => {| iceServers := [] |}
          end in
        let answerOpts := answerOptions options in
        _initRTCPeerConnection cfg ;;
        pc_addStream stream ;;
        emit (localStreamAdded stream) ;;
        offer <- read _incomingSdp ;;
        pc_setRemoteDescription
          {| sd_type := "offer"; sd_sdp := raw offer |}
          (SetRemoteDescription_offer answerOpts)
    end.

(** [uuid] is what [uuidv4()] returns on this call. *)
Definition _initOutgoing (uuid : string) (to : string) (options : Options) : M unit :=
  if indexOf to "@" =? -1
  then throw "Invalid URI"
  else
    match localStream options with
    | None => throw "Missing localStream"
    | Some stream =>
        write (set_id (Some uuid)) ;;
        write (set_direction (Some "outgoing")) ;;
        write (set_remoteIdentity (Some {| uri := to; displayName := None |})) ;;
        let cfg :=
          match pcConfig options with
          | Some c => c
          | None => {| iceServers := [] |}
          end in
        let offerOpts := offerOptions options in
        _initRTCPeerConnection cfg ;;
        pc_addStream stream ;;
        emit (localStreamAdded stream) ;;
        createLocalSdp "offer" offerOpts (CreateLocalSdp_offer to)
    end.

Definition _initIncoming (id : option string) (caller : Caller) (offer : option string)
  : M unit :=
  write (set_id id) ;;
  write (set_remoteIdentity
           (Some {| uri := caller_uri caller;
                    displayName := display_name caller |})) ;;
  write (set_incomingSdp offer) ;;
  write (set_direction (Some "incoming")) ;;
  write (set_state (Some "incoming")).

Definition _handleEvent (message : Message) : M unit :=
  if String.eqb (event message) "state"
  then
    oldState <- read _state ;;
    let newState := state message in
    write (set_state newState) ;;
    dir <- read _direction ;;
    if strict_eq newState "accepted" && strict_eq dir "outgoing"
    then
      emit (stateChanged oldState newState no_data) ;;
      write (set_setup_in_progress true) ;;
      pc_setRemoteDescription
        {| sd_type := "answer"; sd_sdp := munged (sdp message) |}
        SetRemoteDescription_answer
    else if strict_eq newState "established" && strict_eq dir "outgoing"
    then
      busy <- read _setup_in_progress ;;
      if busy
      then write (set_delay_established true)
      else emit (stateChanged oldState newState no_data)
    else if strict_eq newState "terminated"
    then
      emit (stateChanged oldState newState (with_reason (reason message))) ;;
      write (set_terminated true) ;;
      id <- read _id ;;
      perform (CallsDelete id) ;;
      _closeRTCPeerConnection
    else emit (stateChanged oldState newState no_data)
  else ret tt.

(** The [addstream] listener. *)
Definition on_addstream (s : MediaStream) : M unit :=
  emit (streamAdded s).

(** The [icecandidate] listener; [event.candidate] is null at the end
    of gathering. *)
Definition on_icecandidate (candidate : option RTCIceCandidate) : M unit :=
  _sendTrickle candidate.

Definition _onDtmf (tone : string) : M unit :=
  emit (dtmfToneSent tone).

(** ** Callbacks *)

(** Success and failure callbacks of [setRemoteDescription] in [answer]. *)
Definition answer_described (answerOpts : option string) (o : Outcome) : M unit :=
  match o with
  | fulfilled _ => createLocalSdp "answer" answerOpts CreateLocalSdp_answer
  | rejected _ => terminate
  end.

(** [.then] and [.catch] of the answer description in [answer]. *)
Definition answer_created (o : Outcome) : M unit :=
  match o with
  | fulfilled answer_sdp => _sendAnswer answer_sdp
  | rejected _ => terminate
  end.

(** [.then] and [.catch] of the offer description in [_initOutgoing]. *)
Definition offer_created (to : string) (o : Outcome) : M unit :=
  match o with
  | fulfilled offer => _sendCall to offer
  | rejected why => _localTerminate why
  end.

(** Success and failure callbacks of [setRemoteDescription] in
    [_handleEvent]. *)
Definition accept_described (o : Outcome) : M unit :=
  match o with
  | fulfilled _ =>
      write (set_setup_in_progress false) ;;
      t <- read _terminated ;;
      if negb t
      then
        delayed <- read _delay_established ;;
        if delayed
        then
          oldState <- read _state ;;
          write (set_state (Some "established")) ;;
          st <- read _state ;;
          emit (stateChanged oldState st no_data) ;;
          write (set_delay_established false)
        else ret tt
      else ret tt
  | rejected _ => terminate
  end.

(** The callback of [_sendCall], [_sendTerminate] and [_sendTrickle]. *)
Definition request_done_locally (o : Outcome) : M unit :=
  match o with
  | rejected error =>
      if truthy_string error then _localTerminate error else ret tt
  | fulfilled _ => ret tt
  end.

(** The callback of [_sendAnswer]. *)
Definition answer_sent (o : Outcome) : M unit :=
  match o with
  | rejected error => if truthy_string error then terminate else ret tt
  | fulfilled _ => ret tt
  end.

(** The function given to [setTimeout] in [_sendTerminate]. *)
Definition terminate_timeout : M unit :=
  t <- read _terminated ;;
  (if negb t then _localTerminate "200 OK" else ret tt) ;;
  write (set_terminated true).

Definition settle (t : Task) (o : Outcome) : M unit :=
  match t with
  | SetRemoteDescription_offer answerOpts => answer_described answerOpts o
  | CreateLocalSdp_answer => answer_created o
  | CreateLocalSdp_offer to => offer_created to o
  | SetRemoteDescription_answer => accept_described o
  | Request_call => request_done_locally o
  | Request_terminate => request_done_locally o
  | Request_trickle => request_done_locally o
  | Request_answer => answer_sent o
  | Timeout _ => terminate_timeout
  end.

(** ** Tone sending, over the engine's sender factory *)

(** What a call into the engine does: return or throw. *)
Inductive reply (A : Type) : Type :=
| returns (a : A)
| raises (err : string).
Arguments returns {A} a.
Arguments raises {A} err.

Section Engine.

(** [pc.createDTMFSender(track)]: the engine hands back a sender
    object or null, or throws.  The argument is whatever the class
    passes, which need not be a track. *)
Variable createDTMFSender :
  RTCPeerConnection -> js MediaStreamTrack -> reply (option RTCDTMFSender).

(** [duration] and [interToneGap] default to 100 and 70. *)
Definition sendDtmf (tones : string) (duration interToneGap : option Z) : M unit :=
  let duration := or_default duration 100 in
  let interToneGap := or_default interToneGap 70 in
  d <- read _dtmfSender ;;
  match d with
  | None =>
      pc <- read _pc ;;
      match pc with
      | Some p =>
          track <- try_catch
                     (tracks <- getAudioTracks (first (localStreams p)) ;;
                      ret (first tracks))
                     (fun _ => ret null) ;;
          if negb (is_null track)
          then
            perform (PcCreateDTMFSender track) ;;
            match createDTMFSender p track with
            | raises err => throw err
            | returns sender =>
                write (set_dtmfSender sender) ;;
                match sender with
                | Some _ => perform DtmfAddEventListener
                | None => ret tt
                end
            end
          else ret tt
      | None => ret tt
      end
  | Some _ => ret tt
  end ;;
  d <- read _dtmfSender ;;
  match d with
  | Some _ => perform (InsertDTMF tones duration interToneGap)
  | None => ret tt
  end.

(** ** The event loop *)

(** What can happen to a call: the application or the account invokes
    a method, a pending callback is invoked, the engine fires a
    listener, or time passes. *)
Inductive Input : Type :=
| Call_initOutgoing (uuid to : string) (options : Options)
| Call_initIncoming (id : option string) (caller : Caller) (offer : option string)
| Call_answer (options : Options)
| Call_terminate
| Call_sendDtmf (tones : string) (duration interToneGap : option Z)
| Call_handleEvent (message : Message)
| Settle (t : Task) (o : Outcome)
| Fire_addstream (s : MediaStream)
| Fire_icecandidate (candidate : option RTCIceCandidate)
| Fire_tonechange (tone : string)
| Elapse (ms : Z).

Definition Task_eqb (a b : Task) : bool :=
  match a, b with
  | SetRemoteDescription_offer x, SetRemoteDescription_offer y =>
      match x, y with
      | Some s, Some t => String.eqb s t
      | None, None => true
      | _, _ => false
      end
  | CreateLocalSdp_answer, CreateLocalSdp_answer => true
  | CreateLocalSdp_offer x, CreateLocalSdp_offer y => String.eqb x y
  | SetRemoteDescription_answer, SetRemoteDescription_answer => true
  | Request_call, Request_call => true
  | Request_terminate, Request_terminate => true
  | Request_trickle, Request_trickle => true
  | Request_answer, Request_answer => true
  | Timeout x, Timeout y => Z.eqb x y
  | _, _ => false
  end.

(** Takes the first occurrence of [t] out of the pending tasks. *)
Fixpoint take (t : Task) (ts : list Task) : option (list Task) :=
  match ts with
  | [] => None
  | x :: rest =>
      if Task_eqb t x then Some rest
      else match take t rest with
           | Some rest' => Some (x :: rest')
           | None => None
           end
  end.

(** A timer is due once the clock has reached it; every other task
    may be settled at any time. *)
Definition due_now (t : Task) (e : Env) : bool :=
  match t with
  | Timeout d => d <=? clock e
  | _ => true
  end.

(** The engine's listeners exist once [_initRTCPeerConnection] has
    registered them, the sender's once a sender was made. *)
Definition has_engine (e : Env) : bool := (0 <? engines e)%nat.

Definition has_sender (e : Env) : bool :=
  existsb (fun x => match x with DtmfAddEventListener => true | _ => false end)
          (trace e).

(** One turn of the loop; [None] when the input cannot happen in
    this world. *)
Definition dispatch (i : Input) (e : Env) : option (completion unit) :=
  match i with
  | Call_initOutgoing uuid to options => Some (_initOutgoing uuid to options e)
  | Call_initIncoming id caller offer => Some (_initIncoming id caller offer e)
  | Call_answer options => Some (answer options e)
  | Call_terminate => Some (terminate e)
  | Call_sendDtmf tones duration gap => Some (sendDtmf tones duration gap e)
  | Call_handleEvent message => Some (_handleEvent message e)
  | Settle t o =>
      if due_now t e
      then match take t (pending e) with
           | Some rest => Some (settle t o (with_pending rest e))
           | None => None
           end
      else None
  | Fire_addstream s =>
      if has_engine e
    then Some ((engine_adds_stream s ;; on_addstream s) e)
    else None
  | Fire_icecandidate candidate =>
      if has_engine e then Some (on_icecandidate candidate e) else None
  | Fire_tonechange tone =>
      if has_sender e then Some (_onDtmf tone e) else None
  | Elapse ms =>
      if 0 <=? ms then Some (Normal tt (with_clock (clock e + ms) e)) else None
  end.

(** The world after an input; a handler that throws leaves the world
    as it was at the throw. *)
Definition exec (i : Input) (e : Env) : option Env :=
  option_map env_of (dispatch i e).

Fixpoint run (inputs : list Input) (e : Env) : option Env :=
  match inputs with
  | [] => Some e
  | i :: rest =>
      match exec i e with
      | Some e' => run rest e'
      | None => None
      end
  end.

End Engine.

(** An engine as browsers implement it: a sender bound to the track it
    is given, a TypeError for anything that is not a track. *)
Definition browser_createDTMFSender (p : RTCPeerConnection) (track : js MediaStreamTrack)
  : reply (option RTCDTMFSender) :=
  match track with
  | obj t => returns (Some {| sender_track := t |})
  | _ => raises "TypeError: parameter 1 is not of type 'MediaStreamTrack'"
  end.

(** ** Sample data *)

Definition alice : Account :=
  {| account_id := "alice@example.com"; account_displayName := Some "Alice" |}.

Definition microphone : MediaStream :=
  {| stream_id := "microphone";
     audioTracks := [{| track_id := "audio0" |}];
     videoTracks := [] |}.

Definition camera_only : MediaStream :=
  {| stream_id := "camera";
     audioTracks := [];
     videoTracks := [{| track_id := "video0" |}] |}.

Definition with_stream (s : MediaStream) : Options :=
  {| localStream := Some s; pcConfig := None;
     offerOptions := None; answerOptions := None |}.

Definition state_event (s : string) (r : option string) : Message :=
  {| event := "state"; state := Some s; sdp := Some "v=0"; reason := r |}.

(** An outgoing call to bob, right after [_initOutgoing]. *)
Definition dialing : Env :=
  env_of (_initOutgoing "id-1" "bob@example.com" (with_stream microphone) (boot alice)).

(** An outgoing call that sends video only. *)
Definition filming : Env :=
  env_of (_initOutgoing "id-2" "bob@example.com" (with_stream camera_only) (boot alice)).

(** An incoming call from bob, right after [_initIncoming]. *)
Definition ringing : Env :=
  env_of (_initIncoming (Some "s1")
            {| caller_uri := "bob@x.com"; display_name := None |}
            (Some "v=0...") (boot alice)).

(** ** What the traces are read for *)


Definition is_terminate_request (x : Effect) : bool :=
  match x with
  | SendRequest (session_terminate _) => true
  | _ => false
  end.

Definition is_close (x : Effect) : bool :=
  match x with
  | PcClose _ => true
  | _ => false
  end.

Definition count (p : Effect -> bool) (t : list Effect) : nat :=
  List.length (filter p t).

(** The array [_sendTrickle] puts into its message. *)
Definition candidates_of (candidate : option RTCIceCandidate) : list RTCIceCandidate :=
  match candidate with
  | Some c => [c]
  | None => []
  end.

(** What [_closeRTCPeerConnection] does to the outside for a call in
    state [c]: every local stream released, then every remote one, the
    engine closed, the sender's listener removed. *)
Definition teardown_of (c : Call) : list Effect :=
  match _pc c with
  | Some p =>
      map CloseMediaStream (localStreams p)
      ++ map CloseMediaStream (remoteStreams p)
      ++ [PcClose (pc_serial p)]
      ++ match _dtmfSender c with
         | Some _ => [DtmfRemoveEventListener]
         | None => []
         end
  | None => []
  end.

(** The fields after [_closeRTCPeerConnection]. *)
Definition torn_down (c : Call) : Call :=
  match _pc c with
  | Some _ =>
      match _dtmfSender c with
      | Some _ => set_dtmfSender None (set_pc None c)
      | None => set_pc None c
      end
  | None => c
  end.



(** What a turn that sets the terminated flag does. *)
Definition finalizes (e e' : Env) : Prop :=
  _pc (this e') = None
  /\ ((exists error,
         trace e'
         = trace e ++ [CallsDelete (_id (this e))] ++ teardown_of (this e)
           ++ [Emit (stateChanged (_state (this e)) (Some "terminated")
                       (with_reason (Some error)))])
      \/ (exists r,
            trace e'
            = trace e
              ++ [Emit (stateChanged (_state (this e)) (Some "terminated")
                          (with_reason r));
                  CallsDelete (_id (this e))]
              ++ teardown_of (this e))).

(** A turn leaves the terminated flag as it is, or sets it and tears
    the call down. *)
Definition flag_step (e e' : Env) : Prop :=
  _terminated (this e') = _terminated (this e)
  \/ (_terminated (this e) = false /\ _terminated (this e') = true /\ finalizes e e').

(** Inputs whose handler tests the terminated flag before doing
    anything: [terminate()], the timer, the request callbacks, the
    failure callbacks and the callbacks of the remote answer.  The
    success callbacks of a pending description are not among them. *)
Definition guarded (i : Input) : bool :=
  match i with
  | Call_terminate => true
  | Settle (SetRemoteDescription_offer _) (fulfilled _) => false
  | Settle CreateLocalSdp_answer (fulfilled _) => false
  | Settle (CreateLocalSdp_offer _) (fulfilled _) => false
  | Settle _ _ => true
  | _ => false
  end.

(** A turn on a terminated call that shows nothing to the outside and
    keeps the state and the RTCPeerConnection field. *)
Definition untouched (e e' : Env) : Prop :=
  trace e' = trace e
  /\ _state (this e') = _state (this e)
  /\ _pc (this e') = _pc (this e)
  /\ _terminated (this e') = true.

(** The effect is the closing of engine [n]. *)
Definition closes (n : nat) (x : Effect) : bool :=
  match x with
  | PcClose m => Nat.eqb m n
  | _ => false
  end.

(** How a turn can touch the engine: not at all, by making the call's
    one RTCPeerConnection, or by closing it. *)
Definition engine_step (e e' : Env) : Prop :=
  (engines e' = engines e
   /\ option_map pc_serial (_pc (this e')) = option_map pc_serial (_pc (this e))
   /\ forall n, count (closes n) (trace e') = count (closes n) (trace e))
  \/ (_pc (this e) = None
      /\ engines e' = S (engines e)
      /\ option_map pc_serial (_pc (this e')) = Some (engines e)
      /\ forall n, count (closes n) (trace e') = count (closes n) (trace e))
  \/ (exists p,
        _pc (this e) = Some p
        /\ _pc (this e') = None
        /\ engines e' = engines e
        /\ forall n,
             count (closes n) (trace e')
             = (count (closes n) (trace e)
                + if Nat.eqb (pc_serial p) n then 1 else 0)%nat).

(** No engine object is closed twice, none before it exists, and the
    one the call holds has not been closed. *)
Definition closed_at_most_once (e : Env) : Prop :=
  (forall n, (count (closes n) (trace e) <= 1)%nat)
  /\ (forall n, (engines e <= n)%nat -> count (closes n) (trace e) = 0%nat)
  /\ (forall p, _pc (this e) = Some p ->
                (pc_serial p < engines e)%nat
                /\ count (closes (pc_serial p)) (trace e) = 0%nat).


(** An outgoing call that the remote side has terminated. *)
Definition hung_up : Env :=
  env_of (_handleEvent (state_event "terminated" (Some "486 Busy Here")) dialing).

(** ** Further vocabulary *)

(** [options.pcConfig || {iceServers:[]}] *)
Definition config_of (options : Options) : RTCConfiguration :=
  match pcConfig options with
  | Some c => c
  | None => {| iceServers := [] |}
  end.

(** The engine object that [_initOutgoing] and [answer] leave in
    [_pc]: the next serial, the chosen configuration, the one local
    stream. *)
Definition fresh_pc (e : Env) (options : Options) (stream : MediaStream)
  : RTCPeerConnection :=
  {| pc_serial := engines e; pc_config := config_of options;
     localStreams := [stream]; remoteStreams := [] |}.

(** What creating the engine object and attaching the stream shows. *)
Definition setup_of (e : Env) (options : Options) (stream : MediaStream)
  : list Effect :=
  [NewRTCPeerConnection (engines e) (config_of options);
   PcAddEventListener "addstream"; PcAddEventListener "icecandidate";
   PcAddStream stream; Emit (localStreamAdded stream)].

(** The effect is a stateChanged notification. *)
Definition is_stateChanged (x : Effect) : bool :=
  match x with
  | Emit (stateChanged _ _ _) => true
  | _ => false
  end.

(** The effect is a stateChanged notification to 'terminated'. *)
Definition announces_terminated (x : Effect) : bool :=
  match x with
  | Emit (stateChanged _ n _) => strict_eq n "terminated"
  | _ => false
  end.

(** The effect is [account._calls.delete(id)]. *)
Definition deregisters (x : Effect) : bool :=
  match x with
  | CallsDelete _ => true
  | _ => false
  end.

(** The input is a state event reporting 'terminated'. *)
Definition reports_terminated (i : Input) : bool :=
  match i with
  | Call_handleEvent m => String.eqb (event m) "state" && strict_eq (state m) "terminated"
  | _ => false
  end.

(** The call has told its listeners 'terminated' and has left the
    account's registry once if its terminated flag is set, and never
    otherwise. *)
Definition finished_once (e : Env) : Prop :=
  count announces_terminated (trace e) = (if _terminated (this e) then 1 else 0)%nat
  /\ count deregisters (trace e) = (if _terminated (this e) then 1 else 0)%nat.

(** A turn keeps the flag and adds no such notification and no
    deregistration, or sets the flag and adds one of each. *)
Definition finish_step (e e' : Env) : Prop :=
  (_terminated (this e') = _terminated (this e)
   /\ count announces_terminated (trace e') = count announces_terminated (trace e)
   /\ count deregisters (trace e') = count deregisters (trace e))
  \/ (_terminated (this e) = false
      /\ _terminated (this e') = true
      /\ count announces_terminated (trace e') = S (count announces_terminated (trace e))
      /\ count deregisters (trace e') = S (count deregisters (trace e))).


(** The input is one of the two initializers. *)
Definition is_init (i : Input) : bool :=
  match i with
  | Call_initOutgoing _ _ _ => true
  | Call_initIncoming _ _ _ => true
  | _ => false
  end.


(** The fields that say whose call this is and with whom. *)
Definition same_identity (c c' : Call) : Prop :=
  _account c' = _account c
  /\ _localIdentity c' = _localIdentity c
  /\ _id c' = _id c
  /\ _direction c' = _direction c
  /\ _remoteIdentity c' = _remoteIdentity c
  /\ _incomingSdp c' = _incomingSdp c.

(** No state event reporting 'terminated' reaches the call once its
    terminated flag is set (the account has dropped it from its
    registry by then). *)
Fixpoint deliverable
  (engine : RTCPeerConnection -> js MediaStreamTrack -> reply (option RTCDTMFSender))
  (inputs : list Input) (e : Env) : bool :=
  match inputs with
  | [] => true
  | i :: rest =>
      (negb (reports_terminated i) || negb (_terminated (this e)))
      && match exec engine i e with
         | Some e' => deliverable engine rest e'
         | None => true
         end
  end.

(** ** Basic facts *)

Lemma strict_eq_true (a : option string) (s : string) :
  strict_eq a s = true <-> a = Some s.
Proof.
  destruct a as [x|]; cbn.
  - rewrite String.eqb_eq. split; congruence.
  - split; discriminate.
Qed.

Lemma indexOf_from_absent (c : ascii) (s : string) (from : Z) :
  0 <= from ->
  indexOf_from c s from = -1 <-> ~ In c (list_ascii_of_string s).
Proof.
  revert from. induction s as [|a rest IH]; intros from Hfrom; cbn.
  - tauto.
  - destruct (Ascii.eqb_spec a c) as [->|Hne].
    + split; [lia | intro H; exfalso; apply H; now left].
    + rewrite (IH (from + 1)) by lia. tauto.
Qed.

(** [uri.indexOf('@') === -1] says that the uri has no '@'. *)
Lemma indexOf_absent (s : string) (c : ascii) :
  indexOf s c = -1 <-> ~ In c (list_ascii_of_string s).
Proof. apply indexOf_from_absent. lia. Qed.

Lemma for_of_closeMediaStream (xs : list MediaStream) (e : Env) :
  for_of xs closeMediaStream e
  = Normal tt (with_trace (trace e ++ map CloseMediaStream xs) e).
Proof.
  revert e. induction xs as [|x xs IH]; intro e; cbn.
  - rewrite app_nil_r. destruct e; reflexivity.
  - unfold bind, closeMediaStream, perform. rewrite IH. cbn.
    rewrite <- app_assoc. reflexivity.
Qed.

(** ** Stream enumeration *)

(** C10. [getLocalStreams()] and [getRemoteStreams()] always return and
    never throw; while the call has no RTCPeerConnection both return the
    empty list, and that is the case after [_closeRTCPeerConnection]. *)
Theorem streams_without_peer_connection (e : Env) :
  (exists l r, getLocalStreams e = Normal l e /\ getRemoteStreams e = Normal r e)
  /\ (_pc (this e) = None ->
      getLocalStreams e = Normal [] e /\ getRemoteStreams e = Normal [] e)
  /\ (let e' := env_of (_closeRTCPeerConnection e) in
      getLocalStreams e' = Normal [] e' /\ getRemoteStreams e' = Normal [] e').
Proof.
  unfold getLocalStreams, getRemoteStreams, bind, read, ret.
  split; [|split].
  - destruct (_pc (this e)) as [p|]; eauto.
  - intros ->. split; reflexivity.
  - unfold _closeRTCPeerConnection, bind, read.
    destruct (_pc (this e)) as [p|] eqn:Hpc.
    + rewrite !for_of_closeMediaStream. cbn.
      destruct (_dtmfSender (this e)); cbn; split; reflexivity.
    + cbn. rewrite Hpc. split; reflexivity.
Qed.

Lemma streams_without_peer_connection_witness :
  getLocalStreams ringing = Normal [] ringing
  /\ getRemoteStreams ringing = Normal [] ringing.
Proof.
  apply (proj1 (proj2 (streams_without_peer_connection ringing))).
  reflexivity.
Defined.

(** ** Preconditions *)

(** C6. [_initOutgoing] with a uri that has no '@', or without a local
    stream, throws at once and leaves the world as it was: no field of
    the call written, no RTCPeerConnection made, nothing sent, nothing
    pending. *)
Theorem initOutgoing_fails_fast (uuid to : string) (options : Options) (e : Env) :
  ~ In "@"%char (list_ascii_of_string to) \/ localStream options = None ->
  exists err, _initOutgoing uuid to options e = Throw err e.
Proof.
  intro H. unfold _initOutgoing.
  destruct (indexOf to "@" =? -1) eqn:Hidx.
  - now exists "Invalid URI".
  - destruct H as [H | H].
    + apply indexOf_absent in H. rewrite H in Hidx. discriminate.
    + rewrite H. now exists "Missing localStream".
Qed.

Lemma initOutgoing_fails_fast_witness :
  exists err,
    _initOutgoing "id-1" "alice" (with_stream microphone) (boot alice)
    = Throw err (boot alice).
Proof.
  apply initOutgoing_fails_fast. left. cbn. intuition discriminate.
Defined.

(** C7. [answer] throws at once and leaves the world as it was when the
    call is not in the 'incoming' state or no local stream is given;
    [_initRTCPeerConnection] throws, likewise without touching
    anything, when the call already has an RTCPeerConnection. *)
Theorem answer_fails_fast (options : Options) (cfg : RTCConfiguration) (e : Env) :
  (_state (this e) <> Some "incoming" \/ localStream options = None ->
   exists err, answer options e = Throw err e)
  /\ (_pc (this e) <> None ->
      _initRTCPeerConnection cfg e
      = Throw "RTCPeerConnection already initialized" e).
Proof.
  split.
  - intro H. unfold answer, bind, read.
    destruct (strict_eq (_state (this e)) "incoming") eqn:Hst; cbn.
    + destruct H as [H | H].
      * apply strict_eq_true in Hst. contradiction.
      * rewrite H. now exists "Missing localStream".
    + eexists. reflexivity.
  - intro H. unfold _initRTCPeerConnection, bind, read.
    destruct (_pc (this e)); [reflexivity | contradiction].
Qed.

Lemma answer_fails_fast_witness :
  (exists err, answer (with_stream microphone) dialing = Throw err dialing)
  /\ _initRTCPeerConnection {| iceServers := [] |} dialing
     = Throw "RTCPeerConnection already initialized" dialing.
Proof.
  split.
  - apply (proj1 (answer_fails_fast (with_stream microphone) {| iceServers := [] |} dialing)).
    left. discriminate.
  - apply (proj2 (answer_fails_fast (with_stream microphone) {| iceServers := [] |} dialing)).
    discriminate.
Defined.

(** ** Candidate trickling *)

Lemma sendTrickle_sends_one (candidate : option RTCIceCandidate) (e : Env) :
  _sendTrickle candidate e
  = Normal tt
      (with_pending (pending e ++ [Request_trickle])
         (with_trace
            (trace e
             ++ [SendRequest (session_trickle (_id (this e)) (candidates_of candidate))])
            e)).
Proof. destruct candidate; reflexivity. Qed.

Section Trickle.

Variable engine :
  RTCPeerConnection -> js MediaStreamTrack -> reply (option RTCDTMFSender).

(** C8. Every candidate event of the engine, in the turn in which it
    fires, sends exactly one session-trickle message: with the one
    candidate in a one-element array, or with the empty array for the
    null end-of-candidates marker.  A sequence of candidate events
    produces one message per event, in order, and nothing else. *)
Theorem one_trickle_per_candidate (cs : list (option RTCIceCandidate)) (e : Env) :
  has_engine e = true ->
  exists e',
    run engine (map Fire_icecandidate cs) e = Some e'
    /\ this e' = this e
    /\ trace e'
       = trace e
         ++ map (fun c => SendRequest
                            (session_trickle (_id (this e)) (candidates_of c)))
                cs.
Proof.
  revert e. induction cs as [|c cs IH]; intros e He.
  - exists e. cbn. rewrite app_nil_r. auto.
  - cbn [map run]. unfold exec, dispatch. rewrite He.
    unfold on_icecandidate. rewrite sendTrickle_sends_one. cbn [option_map env_of].
    match goal with |- context [run engine _ ?e1] =>
      destruct (IH e1) as (e' & Hrun & Hthis & Htrace); [exact He|] end.
    exists e'. rewrite Hrun, Hthis, Htrace. cbn.
    rewrite <- app_assoc. auto.
Qed.

End Trickle.

Lemma one_trickle_per_candidate_witness :
  exists e',
    run browser_createDTMFSender
        [Fire_icecandidate (Some "candidate:1"); Fire_icecandidate None] dialing
    = Some e'
    /\ this e' = this dialing
    /\ trace e'
       = trace dialing
         ++ [SendRequest (session_trickle (Some "id-1") ["candidate:1"]);
             SendRequest (session_trickle (Some "id-1") [])].
Proof.
  apply (one_trickle_per_candidate browser_createDTMFSender
           [Some "candidate:1"; None] dialing).
  reflexivity.
Defined.

(** ** The accepted/established race *)

Lemma setup_cleared_on_success (accepted : Message) (v : option string) (e : Env) :
  event accepted = "state" ->
  state accepted = Some "accepted" ->
  _direction (this e) = Some "outgoing" ->
  _pc (this e) <> None ->
  let e2 := env_of (accept_described (fulfilled v) (env_of (_handleEvent accepted e))) in
  _setup_in_progress (this e2) = false /\ _direction (this e2) = Some "outgoing".
Proof.
  intros Hev Hst Hdir Hpc. unfold _handleEvent, accept_described. rewrite Hev, Hst.
  unfold pc_setRemoteDescription, on_pc, emit, perform, defer, bind, read, write, ret.
  cbn. rewrite Hdir. cbn.
  destruct (_pc (this e)); [|contradiction]. cbn.
  destruct (_terminated (this e)); cbn; [auto|].
  destruct (_delay_established (this e)); cbn; auto.
Qed.

(** C2. On an outgoing call with no remote description being applied
    ([_setup_in_progress] false), a state event reporting 'established'
    emits the stateChanged notification to 'established' in that same
    turn; nothing is deferred: [_delay_established] is not written and
    no callback is left pending.  That is the case in particular when
    'accepted' was reported and the success callback of the remote
    answer has run. *)
Theorem established_emitted_immediately (message : Message) (e : Env) :
  event message = "state" ->
  state message = Some "established" ->
  _direction (this e) = Some "outgoing" ->
  (_setup_in_progress (this e) = false ->
   _handleEvent message e
   = Normal tt
       (with_trace
          (trace e
           ++ [Emit (stateChanged (_state (this e)) (Some "established") no_data)])
          (with_this (set_state (Some "established") (this e)) e)))
  /\ (forall accepted v,
        event accepted = "state" ->
        state accepted = Some "accepted" ->
        _pc (this e) <> None ->
        let e2 :=
          env_of (accept_described (fulfilled v) (env_of (_handleEvent accepted e))) in
        _handleEvent message e2
        = Normal tt
            (with_trace
               (trace e2
                ++ [Emit (stateChanged (_state (this e2)) (Some "established") no_data)])
               (with_this (set_state (Some "established") (this e2)) e2))).
Proof.
  intros Hev Hst Hdir.
  assert (Hnow : forall e0,
             _direction (this e0) = Some "outgoing" ->
             _setup_in_progress (this e0) = false ->
             _handleEvent message e0
             = Normal tt
                 (with_trace
                    (trace e0
                     ++ [Emit (stateChanged (_state (this e0)) (Some "established")
                                 no_data)])
                    (with_this (set_state (Some "established") (this e0)) e0))).
  { intros e0 Hdir0 Hbusy. unfold _handleEvent. rewrite Hev, Hst. cbn.
    unfold bind, read, write. cbn. rewrite Hdir0. cbn. rewrite Hbusy. reflexivity. }
  split.
  - now apply Hnow.
  - intros accepted v Hev1 Hst1 Hpc e2.
    destruct (setup_cleared_on_success accepted v e Hev1 Hst1 Hdir Hpc) as [Hbusy Hdir2].
    now apply Hnow.
Qed.

Lemma established_emitted_immediately_witness :
  let e2 :=
    env_of (accept_described (fulfilled None)
              (env_of (_handleEvent (state_event "accepted" None) dialing))) in
  _handleEvent (state_event "established" None) e2
  = Normal tt
      (with_trace
         (trace e2
          ++ [Emit (stateChanged (_state (this e2)) (Some "established") no_data)])
         (with_this (set_state (Some "established") (this e2)) e2)).
Proof.
  assert (Hpc : _pc (this dialing) <> None) by discriminate.
  exact (proj2 (established_emitted_immediately (state_event "established" None) dialing
                  eq_refl eq_refl eq_refl)
               (state_event "accepted" None) None eq_refl eq_refl Hpc).
Defined.

(** ** Teardown *)

Lemma closeRTCPeerConnection_spec (e : Env) :
  _closeRTCPeerConnection e
  = Normal tt (with_this (torn_down (this e))
                 (with_trace (trace e ++ teardown_of (this e)) e)).
Proof.
  unfold _closeRTCPeerConnection, torn_down, teardown_of, bind, read.
  destruct (_pc (this e)) as [p|] eqn:Hpc.
  - rewrite !for_of_closeMediaStream. cbn.
    destruct (_dtmfSender (this e)); cbn; rewrite <- !app_assoc; reflexivity.
  - rewrite app_nil_r. destruct e; reflexivity.
Qed.

Arguments _closeRTCPeerConnection : simpl never.

Lemma torn_down_pc (c : Call) : _pc (torn_down c) = None.
Proof.
  unfold torn_down. destruct (_pc c) eqn:H; [destruct (_dtmfSender c)|]; auto.
Qed.

Lemma torn_down_terminated (c : Call) : _terminated (torn_down c) = _terminated c.
Proof.
  unfold torn_down. destruct (_pc c); [destruct (_dtmfSender c)|]; reflexivity.
Qed.

Lemma localTerminate_live (error : string) (e : Env) :
  _terminated (this e) = false ->
  _localTerminate error e
  = Normal tt
      (with_trace
         (trace e ++ [CallsDelete (_id (this e))] ++ teardown_of (this e)
          ++ [Emit (stateChanged (_state (this e)) (Some "terminated")
                      (with_reason (Some error)))])
         (with_this (torn_down (set_terminated true (this e))) e)).
Proof.
  intro H. unfold _localTerminate, bind, read. rewrite H. cbn.
  rewrite closeRTCPeerConnection_spec. unfold emit, perform. cbn.
  rewrite <- !app_assoc. reflexivity.
Qed.

Lemma localTerminate_terminated (error : string) (e : Env) :
  _terminated (this e) = true -> _localTerminate error e = Normal tt e.
Proof. intro H. unfold _localTerminate, bind, read. now rewrite H. Qed.

Lemma terminate_timeout_live (e : Env) :
  _terminated (this e) = false ->
  terminate_timeout e
  = Normal tt
      (with_trace
         (trace e ++ [CallsDelete (_id (this e))] ++ teardown_of (this e)
          ++ [Emit (stateChanged (_state (this e)) (Some "terminated")
                      (with_reason (Some "200 OK")))])
         (with_this
            (set_terminated true (torn_down (set_terminated true (this e)))) e)).
Proof.
  intro H. unfold terminate_timeout, bind, read. rewrite H. cbn [negb].
  rewrite localTerminate_live by exact H. reflexivity.
Qed.

Lemma terminate_timeout_terminated (e : Env) :
  _terminated (this e) = true -> terminate_timeout e = Normal tt e.
Proof.
  intro H. unfold terminate_timeout, bind, read, write. rewrite H. cbn.
  destruct e as [c tr pd ck en]. destruct c. cbn in *. subst. reflexivity.
Qed.

Lemma handleEvent_terminated (message : Message) (e : Env) :
  event message = "state" ->
  state message = Some "terminated" ->
  _handleEvent message e
  = Normal tt
      (with_trace
         (trace e
          ++ [Emit (stateChanged (_state (this e)) (Some "terminated")
                      (with_reason (reason message)));
              CallsDelete (_id (this e))]
          ++ teardown_of (this e))
         (with_this
            (torn_down (set_terminated true (set_state (Some "terminated") (this e))))
            e)).
Proof.
  intros Hev Hst. unfold _handleEvent. rewrite Hev, Hst.
  unfold bind, read, write, emit, perform. cbn.
  rewrite closeRTCPeerConnection_spec. cbn. rewrite <- !app_assoc. reflexivity.
Qed.

Lemma terminate_live (e : Env) :
  _terminated (this e) = false ->
  terminate e
  = Normal tt
      (with_pending (pending e ++ [Request_terminate; Timeout (clock e + 150)])
         (with_trace
            (trace e ++ [SendRequest (session_terminate (_id (this e))); SetTimeout 150])
            e)).
Proof.
  intro H. unfold terminate, bind, read. rewrite H.
  unfold _sendTerminate, _sendRequest, setTimeout, bind, read, perform, defer, now.
  cbn. rewrite <- !app_assoc. reflexivity.
Qed.

Lemma terminate_terminated (e : Env) :
  _terminated (this e) = true -> terminate e = Normal tt e.
Proof. intro H. unfold terminate, bind, read. now rewrite H. Qed.

(** ** Pending tasks *)

Lemma Task_eqb_refl (t : Task) : Task_eqb t t = true.
Proof.
  destruct t as [[s|]| |s| | | | | |d]; cbn;
    auto using String.eqb_refl, Z.eqb_refl.
Qed.

Lemma take_In (t : Task) (ts : list Task) :
  In t ts -> exists rest, take t ts = Some rest.
Proof.
  induction ts as [|x ts IH]; cbn; [tauto|].
  intros [-> | H].
  - rewrite Task_eqb_refl. eauto.
  - destruct (Task_eqb t x); [eauto|]. destruct (IH H) as [rest ->]. eauto.
Qed.

Lemma take_app (t : Task) (xs ys : list Task) :
  In t xs -> exists r, take t (xs ++ ys) = Some (r ++ ys).
Proof.
  induction xs as [|x xs IH]; cbn; [tauto|].
  intros [-> | H].
  - rewrite Task_eqb_refl. now exists xs.
  - destruct (Task_eqb t x); [now exists xs|].
    destruct (IH H) as [r ->]. now exists (x :: r).
Qed.

(** ** Termination *)

Section Termination.

Variable engine :
  RTCPeerConnection -> js MediaStreamTrack -> reply (option RTCDTMFSender).

Lemma exec_Elapse (ms : Z) (e : Env) :
  0 <= ms -> exec engine (Elapse ms) e = Some (with_clock (clock e + ms) e).
Proof.
  intro H. unfold exec, dispatch.
  replace (0 <=? ms) with true by (symmetry; apply Z.leb_le; exact H).
  reflexivity.
Qed.

Lemma exec_Settle (t : Task) (o : Outcome) (e : Env) :
  due_now t e = true ->
  In t (pending e) ->
  exists rest,
    exec engine (Settle t o) e = Some (env_of (settle t o (with_pending rest e))).
Proof.
  intros Hdue Hin. unfold exec, dispatch. rewrite Hdue.
  destruct (take_In t (pending e) Hin) as [rest ->]. now exists rest.
Qed.

Lemma exec_Settle_app (t : Task) (o : Outcome) (e : Env) (xs ys : list Task) :
  due_now t e = true ->
  pending e = xs ++ ys ->
  In t xs ->
  exists r,
    exec engine (Settle t o) e
    = Some (env_of (settle t o (with_pending (r ++ ys) e))).
Proof.
  intros Hdue Hp Hin. unfold exec, dispatch. rewrite Hdue, Hp.
  destruct (take_app t xs ys Hin) as [r ->]. now exists r.
Qed.

Ltac turn :=
  cbn [run];
  first [ rewrite exec_Elapse by lia
        | unfold exec at 1; cbn [dispatch option_map env_of] ].

Ltac fire :=
  cbn [run];
  match goal with
  | |- context [exec engine (Settle ?t ?o) ?e] =>
      let rest := fresh "rest" in
      let Hr := fresh "Hr" in
      destruct (exec_Settle t o e) as [rest Hr];
      [ cbn; try (apply Z.leb_le; lia); reflexivity
      | cbn; rewrite ?in_app_iff; cbn; auto 10
      | rewrite Hr; cbn [settle] ]
  end.

(** C5. After [terminate()] on a live call with no answer from the
    remote side, the timer armed for 150ms, when it fires, terminates
    the call locally and notifies 'terminated' with reason '200 OK';
    it cannot fire before 150ms have passed.  When the call was
    finalized earlier (a remote 'terminated' event at 100ms), the
    timer callback adds nothing: no second notification and no second
    teardown.  In general the timer callback changes nothing at all on
    a terminated call, and on any call not yet terminated it performs
    the local termination with reason '200 OK'. *)
Theorem terminate_fallback_timer (e : Env) :
  _terminated (this e) = false ->
  (exists e',
     run engine [Call_terminate; Elapse 150;
                 Settle (Timeout (clock e + 150)) (fulfilled None)] e = Some e'
     /\ _terminated (this e') = true
     /\ _pc (this e') = None
     /\ trace e'
        = trace e
          ++ [SendRequest (session_terminate (_id (this e))); SetTimeout 150;
              CallsDelete (_id (this e))]
          ++ teardown_of (this e)
          ++ [Emit (stateChanged (_state (this e)) (Some "terminated")
                      (with_reason (Some "200 OK")))])
  /\ (forall ms, ms < 150 ->
      run engine [Call_terminate; Elapse ms;
                  Settle (Timeout (clock e + 150)) (fulfilled None)] e = None)
  /\ (forall r, exists e',
      run engine [Call_terminate; Elapse 100;
                  Call_handleEvent (state_event "terminated" r); Elapse 50;
                  Settle (Timeout (clock e + 150)) (fulfilled None)] e = Some e'
      /\ _terminated (this e') = true
      /\ trace e'
         = trace e
           ++ [SendRequest (session_terminate (_id (this e))); SetTimeout 150;
               Emit (stateChanged (_state (this e)) (Some "terminated")
                       (with_reason r));
               CallsDelete (_id (this e))]
           ++ teardown_of (this e))
  /\ (forall e0, _terminated (this e0) = true -> terminate_timeout e0 = Normal tt e0)
  /\ (forall e0,
      _terminated (this e0) = false ->
      terminate_timeout e0
      = Normal tt
          (with_trace
             (trace e0 ++ [CallsDelete (_id (this e0))] ++ teardown_of (this e0)
              ++ [Emit (stateChanged (_state (this e0)) (Some "terminated")
                          (with_reason (Some "200 OK")))])
             (with_this
                (set_terminated true (torn_down (set_terminated true (this e0))))
                e0))).
Proof.
  intro H. split; [|split; [|split; [|split]]].
  - turn. rewrite terminate_live by exact H. turn. fire.
    rewrite terminate_timeout_live by exact H.
    eexists. split; [reflexivity|]. cbn.
    split; [reflexivity|]. split.
    + apply torn_down_pc.
    + rewrite <- !app_assoc. reflexivity.
  - intros ms Hms. turn. rewrite terminate_live by exact H. cbn [run].
    unfold exec at 1. cbn [dispatch].
    destruct (0 <=? ms); [|reflexivity].
    cbn [option_map env_of]. unfold exec, dispatch.
    cbn [due_now clock with_clock with_pending with_trace].
    replace (clock e + 150 <=? clock e + ms) with false
      by (symmetry; apply Z.leb_gt; lia).
    reflexivity.
  - intro r. turn. rewrite terminate_live by exact H. turn. turn.
    rewrite handleEvent_terminated by reflexivity. turn. fire.
    rewrite terminate_timeout_terminated.
    + eexists. split; [reflexivity|]. cbn. split.
      * now rewrite torn_down_terminated.
      * rewrite <- !app_assoc. reflexivity.
    + cbn. now rewrite torn_down_terminated.
  - apply terminate_timeout_terminated.
  - apply terminate_timeout_live.
Qed.

(** C3, as the code has it.  [terminate()] on a call whose terminated
    flag is set does nothing.  Called a second time after the first
    call ran its course (the timer fired), it sends nothing more.
    Called twice before the flag is set, each call sends a
    session-terminate message and arms a timer, and the teardown and
    the 'terminated' notification still happen once. *)
Theorem terminate_twice (e : Env) :
  (_terminated (this e) = true -> terminate e = Normal tt e)
  /\ (_terminated (this e) = false ->
      exists e',
        run engine [Call_terminate; Elapse 150;
                    Settle (Timeout (clock e + 150)) (fulfilled None);
                    Call_terminate] e = Some e'
        /\ trace e'
           = trace e
             ++ [SendRequest (session_terminate (_id (this e))); SetTimeout 150;
                 CallsDelete (_id (this e))]
             ++ teardown_of (this e)
             ++ [Emit (stateChanged (_state (this e)) (Some "terminated")
                         (with_reason (Some "200 OK")))])
  /\ (_terminated (this e) = false ->
      exists e',
        run engine [Call_terminate; Call_terminate; Elapse 150;
                    Settle (Timeout (clock e + 150)) (fulfilled None);
                    Settle (Timeout (clock e + 150)) (fulfilled None)] e = Some e'
        /\ trace e'
           = trace e
             ++ [SendRequest (session_terminate (_id (this e))); SetTimeout 150;
                 SendRequest (session_terminate (_id (this e))); SetTimeout 150;
                 CallsDelete (_id (this e))]
             ++ teardown_of (this e)
             ++ [Emit (stateChanged (_state (this e)) (Some "terminated")
                         (with_reason (Some "200 OK")))]).
Proof.
  split; [apply terminate_terminated | split; intro H].
  - turn. rewrite terminate_live by exact H. turn. fire.
    rewrite terminate_timeout_live by exact H. turn.
    rewrite terminate_terminated by reflexivity.
    eexists. split; [reflexivity|]. cbn. rewrite <- !app_assoc. reflexivity.
  - turn. rewrite terminate_live by exact H. turn.
    rewrite terminate_live by exact H. turn. cbn [run].
    match goal with |- context [exec engine (Settle ?t ?o) ?e1] =>
      destruct (exec_Settle_app t o e1
                  (pending e ++ [Request_terminate; Timeout (clock e + 150)])
                  [Request_terminate; Timeout (clock e + 150)])
        as [r Hr];
      [ cbn; apply Z.leb_le; lia
      | reflexivity
      | rewrite in_app_iff; cbn; auto
      | rewrite Hr; cbn [settle] ]
    end.
    rewrite terminate_timeout_live by exact H. fire.
    rewrite terminate_timeout_terminated by reflexivity.
    eexists. split; [reflexivity|]. cbn. rewrite <- !app_assoc. reflexivity.
Qed.

End Termination.

Lemma terminate_fallback_timer_witness :
  exists e',
    run browser_createDTMFSender
        [Call_terminate; Elapse 150; Settle (Timeout 150) (fulfilled None)] dialing
    = Some e'
    /\ _terminated (this e') = true
    /\ _pc (this e') = None
    /\ trace e'
       = trace dialing
         ++ [SendRequest (session_terminate (Some "id-1")); SetTimeout 150;
             CallsDelete (Some "id-1");
             CloseMediaStream microphone; PcClose 0;
             Emit (stateChanged None (Some "terminated")
                     (with_reason (Some "200 OK")))].
Proof.
  exact (proj1 (terminate_fallback_timer browser_createDTMFSender dialing eq_refl)).
Defined.

Lemma terminate_twice_witness :
  exists e',
    run browser_createDTMFSender
        [Call_terminate; Call_terminate; Elapse 150;
         Settle (Timeout 150) (fulfilled None);
         Settle (Timeout 150) (fulfilled None)] dialing
    = Some e'
    /\ trace e'
       = trace dialing
         ++ [SendRequest (session_terminate (Some "id-1")); SetTimeout 150;
             SendRequest (session_terminate (Some "id-1")); SetTimeout 150;
             CallsDelete (Some "id-1");
             CloseMediaStream microphone; PcClose 0;
             Emit (stateChanged None (Some "terminated")
                     (with_reason (Some "200 OK")))].
Proof.
  exact (proj2 (proj2 (terminate_twice browser_createDTMFSender dialing)) eq_refl).
Defined.

(** C3, as the claim states it, fails: a second [terminate()] right
    after the first is not a no-op, it sends session-terminate again. *)
Lemma second_terminate_sends_again :
  let e1 := env_of (terminate dialing) in
  terminate e1 <> Normal tt e1
  /\ count is_terminate_request (trace e1) = 1%nat
  /\ count is_terminate_request (trace (env_of (terminate e1))) = 2%nat.
Proof.
  cbv zeta. split; [|split; reflexivity].
  vm_compute. intro H. discriminate H.
Qed.

(** ** Tones *)

Section Tones.

Variable engine :
  RTCPeerConnection -> js MediaStreamTrack -> reply (option RTCDTMFSender).

Variables (tones : string) (duration interToneGap : option Z).

Lemma sendDtmf_without_pc (e : Env) :
  _dtmfSender (this e) = None ->
  _pc (this e) = None ->
  sendDtmf engine tones duration interToneGap e = Normal tt e.
Proof.
  intros Hd Hp. unfold sendDtmf, bind, read. rewrite Hd, Hp. cbn. now rewrite Hd.
Qed.

Lemma sendDtmf_without_streams (e : Env) (p : RTCPeerConnection) :
  _dtmfSender (this e) = None ->
  _pc (this e) = Some p ->
  localStreams p = [] ->
  sendDtmf engine tones duration interToneGap e = Normal tt e.
Proof.
  intros Hd Hp Hs. unfold sendDtmf, bind, read. rewrite Hd, Hp, Hs. cbn.
  now rewrite Hd.
Qed.

Lemma sendDtmf_reuses_sender (e : Env) (sender : RTCDTMFSender) :
  _dtmfSender (this e) = Some sender ->
  sendDtmf engine tones duration interToneGap e
  = Normal tt (with_trace (trace e ++ [InsertDTMF tones (or_default duration 100) (or_default interToneGap 70)]) e).
Proof.
  intro Hd. unfold sendDtmf, bind, read. rewrite Hd. cbn. now rewrite Hd.
Qed.

Lemma sendDtmf_creates_sender (e : Env) (p : RTCPeerConnection)
      (s : MediaStream) (rest : list MediaStream)
      (t : MediaStreamTrack) (ts : list MediaStreamTrack)
      (sender : RTCDTMFSender) :
  _dtmfSender (this e) = None ->
  _pc (this e) = Some p ->
  localStreams p = s :: rest ->
  audioTracks s = t :: ts ->
  engine p (obj t) = returns (Some sender) ->
  sendDtmf engine tones duration interToneGap e
  = Normal tt
      (with_trace
         (trace e ++ [PcCreateDTMFSender (obj t); DtmfAddEventListener;
                      InsertDTMF tones (or_default duration 100) (or_default interToneGap 70)])
         (with_this (set_dtmfSender (Some sender) (this e)) e)).
Proof.
  intros Hd Hp Hs Ht He. unfold sendDtmf, bind, read. rewrite Hd, Hp, Hs.
  cbn. rewrite Ht. cbn. rewrite He. unfold perform. cbn.
  rewrite <- !app_assoc. reflexivity.
Qed.

(** C9, where the code departs from it.  With a RTCPeerConnection
    whose first local stream has no audio track, [sendDtmf] does not
    return silently: [getAudioTracks()[0]] is [undefined], which
    passes the [track !== null] test, so the engine is asked for a
    sender for [undefined], and what the engine answers decides the
    outcome (its exception leaves [sendDtmf]). *)
Theorem sendDtmf_stream_without_audio (e : Env) (p : RTCPeerConnection)
        (s : MediaStream) (rest : list MediaStream) :
  _dtmfSender (this e) = None ->
  _pc (this e) = Some p ->
  localStreams p = s :: rest ->
  audioTracks s = [] ->
  match engine p undefined with
  | raises err =>
      sendDtmf engine tones duration interToneGap e
      = Throw err (with_trace (trace e ++ [PcCreateDTMFSender undefined]) e)
  | returns None =>
      sendDtmf engine tones duration interToneGap e
      = Normal tt
          (with_this (set_dtmfSender None (this e))
             (with_trace (trace e ++ [PcCreateDTMFSender undefined]) e))
  | returns (Some sender) =>
      sendDtmf engine tones duration interToneGap e
      = Normal tt
          (with_trace
             (trace e ++ [PcCreateDTMFSender undefined; DtmfAddEventListener;
                          InsertDTMF tones (or_default duration 100) (or_default interToneGap 70)])
             (with_this (set_dtmfSender (Some sender) (this e)) e))
  end.
Proof.
  intros Hd Hp Hs Ht. unfold sendDtmf, bind, read. rewrite Hd, Hp, Hs.
  cbn. rewrite Ht. cbn.
  destruct (engine p undefined) as [[sender|]|err]; unfold perform; cbn.
  - rewrite <- !app_assoc. reflexivity.
  - reflexivity.
  - reflexivity.
Qed.

End Tones.

Lemma sendDtmf_stream_without_audio_witness :
  sendDtmf browser_createDTMFSender "1" None None filming
  = Throw "TypeError: parameter 1 is not of type 'MediaStreamTrack'"
      (with_trace (trace filming ++ [PcCreateDTMFSender undefined]) filming).
Proof.
  exact (sendDtmf_stream_without_audio browser_createDTMFSender "1" None None filming
           {| pc_serial := 0; pc_config := {| iceServers := [] |};
              localStreams := [camera_only]; remoteStreams := [] |}
           camera_only [] eq_refl eq_refl eq_refl eq_refl).
Defined.

(** ** Symbolic execution of the handlers *)

Ltac open_env e :=
  let c := fresh "c" in
  destruct e as [c ? ? ? ?]; destruct c; cbn in *; subst.

Ltac case_inner :=
  match goal with
  | |- context [match negb ?x with _ => _ end] => is_var x; destruct x
  | |- context [match ?x with _ => _ end] => is_var x; destruct x
  | |- context [match ?x with _ => _ end] =>
      lazymatch x with
      | context [match _ with _ => _ end] => fail
      | _ => destruct x eqn:?
      end
  end.

Ltac unfold_js :=
  unfold answer, terminate, _localTerminate, _sendTerminate, _sendRequest, _sendCall,
    _sendAnswer, _sendTrickle, _initRTCPeerConnection, _initOutgoing, _initIncoming,
    _handleEvent, on_addstream, on_icecandidate, _onDtmf, sendDtmf,
    answer_described, answer_created, offer_created, accept_described,
    request_done_locally, answer_sent, terminate_timeout,
    getAudioTracks, createLocalSdp, setTimeout, now, try_catch,
    pc_addStream, pc_setRemoteDescription, on_pc, new_RTCPeerConnection,
    engine_adds_stream, emit, perform, defer, bind, read, write, ret, throw.

Lemma filter_released (p : Effect -> bool) (l : list MediaStream) :
  (forall s, p (CloseMediaStream s) = false) ->
  filter p (map CloseMediaStream l) = [].
Proof.
  intro H. induction l as [|x l IH]; cbn; [reflexivity|]. now rewrite H.
Qed.

Lemma torn_down_direction (c : Call) : _direction (torn_down c) = _direction c.
Proof. unfold torn_down. destruct (_pc c); [destruct (_dtmfSender c)|]; reflexivity. Qed.


Lemma filter_teardown (p : Effect -> bool) (c : Call) :
  (forall s, p (CloseMediaStream s) = false) ->
  (forall n, p (PcClose n) = false) ->
  p DtmfRemoveEventListener = false ->
  filter p (teardown_of c) = [].
Proof.
  intros Hs Hc Hd. unfold teardown_of.
  destruct (_pc c) as [pc|]; [|reflexivity].
  rewrite !filter_app, !filter_released by exact Hs.
  cbn. rewrite Hc. destruct (_dtmfSender c); cbn; now rewrite ?Hd.
Qed.

Arguments torn_down : simpl never.
Arguments teardown_of : simpl never.

Ltac tally :=
  unfold count; rewrite ?filter_app, ?length_app;
  rewrite ?filter_released by reflexivity;
  rewrite ?filter_teardown by reflexivity; cbn; try lia.

Ltac crank :=
  unfold_js; cbn;
  repeat (first [ rewrite closeRTCPeerConnection_spec | case_inner ]; cbn).




(** ** An 'established' report that overtakes the remote answer *)

Section Race.

Variable engine :
  RTCPeerConnection -> js MediaStreamTrack -> reply (option RTCDTMFSender).











End Race.


(** ** After termination *)

Lemma closes_teardown (n : nat) (c : Call) :
  List.length (filter (closes n) (teardown_of c))
  = match _pc c with
    | Some p => if Nat.eqb (pc_serial p) n then 1%nat else 0%nat
    | None => 0%nat
    end.
Proof.
  unfold teardown_of. destruct (_pc c) as [p|]; [|reflexivity].
  rewrite !filter_app, !length_app, !filter_released by reflexivity. cbn.
  destruct (Nat.eqb (pc_serial p) n); destruct (_dtmfSender c); reflexivity.
Qed.

Section Finality.

Variable engine :
  RTCPeerConnection -> js MediaStreamTrack -> reply (option RTCDTMFSender).

Ltac flag_leaf :=
  rewrite ?torn_down_terminated; cbn;
  first
    [ left; reflexivity
    | congruence
    | right; split; [reflexivity|]; split; [reflexivity|];
      split; [apply torn_down_pc|];
      rewrite <- ?app_assoc; cbn [app];
      first [ left; eexists; reflexivity | right; eexists; reflexivity ] ].

Ltac flag_cases e :=
  unfold flag_step, finalizes;
  destruct (_terminated (this e)) eqn:?; open_env e; crank; flag_leaf.

Lemma flag_step_answer o e : flag_step e (env_of (answer o e)).
Proof. flag_cases e. Qed.

Lemma flag_step_terminate e : flag_step e (env_of (terminate e)).
Proof. flag_cases e. Qed.

Lemma flag_step_sendDtmf t d g e : flag_step e (env_of (sendDtmf engine t d g e)).
Proof. flag_cases e. Qed.

Lemma flag_step_initOutgoing u t o e : flag_step e (env_of (_initOutgoing u t o e)).
Proof. flag_cases e. Qed.

Lemma flag_step_initIncoming i c o e : flag_step e (env_of (_initIncoming i c o e)).
Proof. flag_cases e. Qed.

Lemma flag_step_handleEvent m e : flag_step e (env_of (_handleEvent m e)).
Proof.
  destruct (strict_eq (state m) "terminated") eqn:Hs.
  - apply strict_eq_true in Hs. unfold _handleEvent. rewrite Hs. flag_cases e.
  - flag_cases e.
Qed.

Lemma flag_step_settle t o e : flag_step e (env_of (settle t o e)).
Proof. destruct t, o; cbn [settle]; flag_cases e. Qed.

Lemma flag_step_exec i e e' : exec engine i e = Some e' -> flag_step e e'.
Proof.
  unfold exec. destruct i; cbn [dispatch option_map].
  - intros [= <-]. apply flag_step_initOutgoing.
  - intros [= <-]. apply flag_step_initIncoming.
  - intros [= <-]. apply flag_step_answer.
  - intros [= <-]. apply flag_step_terminate.
  - intros [= <-]. apply flag_step_sendDtmf.
  - intros [= <-]. apply flag_step_handleEvent.
  - destruct (due_now t e); [|discriminate].
    destruct (take t (pending e)) as [rest|]; [|discriminate].
    intros [= <-]. apply (flag_step_settle t o (with_pending rest e)).
  - destruct (has_engine e); [|discriminate]. intros [= <-]. flag_cases e.
  - destruct (has_engine e); [|discriminate]. intros [= <-]. now left.
  - destruct (has_sender e); [|discriminate]. intros [= <-]. now left.
  - destruct (0 <=? ms); [|discriminate]. intros [= <-]. now left.
Qed.

Lemma guarded_settle t o e :
  _terminated (this e) = true ->
  guarded (Settle t o) = true ->
  untouched e (env_of (settle t o e)).
Proof.
  intros Ht Hg. unfold untouched.
  destruct t, o; try discriminate Hg; cbn [settle]; open_env e; crank; auto.
Qed.

Lemma guarded_exec i e e' :
  exec engine i e = Some e' ->
  _terminated (this e) = true ->
  guarded i = true ->
  untouched e e'.
Proof.
  unfold exec. intros He Ht Hg.
  destruct i; try discriminate Hg; cbn [dispatch option_map] in He.
  - injection He as <-. rewrite terminate_terminated by exact Ht.
    unfold untouched. auto.
  - destruct (due_now t e); [|discriminate].
    destruct (take t (pending e)) as [rest|]; [|discriminate].
    injection He as <-.
    apply (guarded_settle t o (with_pending rest e)); assumption.
Qed.

Ltac engine_leaf :=
  rewrite ?torn_down_pc;
  try match goal with p : option RTCPeerConnection |- _ => destruct p end;
  cbn;
  first
    [ left; split; [reflexivity|]; split; [reflexivity|];
      intro; unfold count; rewrite ?filter_app, ?length_app, ?closes_teardown; cbn; lia
    | right; left; split; [reflexivity|]; split; [reflexivity|]; split; [reflexivity|];
      intro; unfold count; rewrite ?filter_app, ?length_app, ?closes_teardown; cbn; lia
    | right; right; eexists; split; [reflexivity|]; split; [reflexivity|];
      split; [reflexivity|];
      intro; unfold count; rewrite ?filter_app, ?length_app, ?closes_teardown; cbn; lia ].

Ltac engine_cases e := unfold engine_step; open_env e; crank; engine_leaf.

Lemma engine_step_answer o e : engine_step e (env_of (answer o e)).
Proof. engine_cases e. Qed.

Lemma engine_step_terminate e : engine_step e (env_of (terminate e)).
Proof. engine_cases e. Qed.

Lemma engine_step_sendDtmf t d g e : engine_step e (env_of (sendDtmf engine t d g e)).
Proof. engine_cases e. Qed.

Lemma engine_step_initOutgoing u t o e : engine_step e (env_of (_initOutgoing u t o e)).
Proof. engine_cases e. Qed.

Lemma engine_step_initIncoming i c o e : engine_step e (env_of (_initIncoming i c o e)).
Proof. engine_cases e. Qed.

Lemma engine_step_handleEvent m e : engine_step e (env_of (_handleEvent m e)).
Proof. engine_cases e. Qed.

Lemma engine_step_settle t o e : engine_step e (env_of (settle t o e)).
Proof. destruct t, o; cbn [settle]; engine_cases e. Qed.

Lemma engine_step_exec i e e' : exec engine i e = Some e' -> engine_step e e'.
Proof.
  unfold exec. destruct i; cbn [dispatch option_map].
  - intros [= <-]. apply engine_step_initOutgoing.
  - intros [= <-]. apply engine_step_initIncoming.
  - intros [= <-]. apply engine_step_answer.
  - intros [= <-]. apply engine_step_terminate.
  - intros [= <-]. apply engine_step_sendDtmf.
  - intros [= <-]. apply engine_step_handleEvent.
  - destruct (due_now t e); [|discriminate].
    destruct (take t (pending e)) as [rest|]; [|discriminate].
    intros [= <-]. apply (engine_step_settle t o (with_pending rest e)).
  - destruct (has_engine e); [|discriminate]. intros [= <-]. engine_cases e.
  - destruct (has_engine e); [|discriminate]. intros [= <-]. engine_cases e.
  - destruct (has_sender e); [|discriminate]. intros [= <-]. engine_cases e.
  - destruct (0 <=? ms); [|discriminate]. intros [= <-]. engine_cases e.
Qed.

Lemma closed_at_most_once_step e e' :
  engine_step e e' -> closed_at_most_once e -> closed_at_most_once e'.
Proof.
  intros Hstep (Hle & Hfresh & Hpc).
  destruct Hstep
    as [(Hen & Hser & Hcnt) | [(Hnone & Hen & Hser & Hcnt) | (p & Hp & Hp' & Hen & Hcnt)]].
  - split; [|split].
    + intro n. rewrite Hcnt. apply Hle.
    + intros n Hn. rewrite Hcnt. apply Hfresh. lia.
    + intros q Hq. rewrite Hq in Hser. cbn in Hser.
      destruct (_pc (this e)) as [q0|] eqn:Hq0; [|discriminate].
      injection Hser as Hser. rewrite Hser, Hen, Hcnt. now apply Hpc.
  - split; [|split].
    + intro n. rewrite Hcnt. apply Hle.
    + intros n Hn. rewrite Hcnt. apply Hfresh. lia.
    + intros q Hq. rewrite Hq in Hser. cbn in Hser. injection Hser as Hser.
      rewrite Hser, Hen, Hcnt. split; [lia|]. apply Hfresh. lia.
  - destruct (Hpc p Hp) as [Hlt Hzero]. split; [|split].
    + intro n. rewrite Hcnt. destruct (Nat.eqb_spec (pc_serial p) n) as [<-|Hne].
      * rewrite Hzero. lia.
      * specialize (Hle n). lia.
    + intros n Hn. rewrite Hcnt. destruct (Nat.eqb_spec (pc_serial p) n) as [<-|Hne].
      * lia.
      * rewrite Hfresh by lia. reflexivity.
    + intros q Hq. congruence.
Qed.

Lemma closed_at_most_once_boot account : closed_at_most_once (boot account).
Proof. repeat split; cbn; try lia; discriminate. Qed.

Lemma closed_at_most_once_run inputs e e' :
  run engine inputs e = Some e' -> closed_at_most_once e -> closed_at_most_once e'.
Proof.
  revert e. induction inputs as [|i inputs IH]; intros e; cbn.
  - now intros [= <-].
  - destruct (exec engine i e) as [e1|] eqn:He1; [|discriminate].
    intros Hrun He. apply (IH e1 Hrun).
    apply (closed_at_most_once_step e); [|exact He].
    exact (engine_step_exec i e e1 He1).
Qed.

Lemma teardown_closes_once (c : Call) :
  count is_close (teardown_of c)
  = match _pc c with
    | Some _ => 1%nat
    | None => 0%nat
    end.
Proof.
  unfold count, teardown_of. destruct (_pc c) as [p|]; [|reflexivity].
  rewrite !filter_app, !length_app, !filter_released by reflexivity. cbn.
  destruct (_dtmfSender c); reflexivity.
Qed.

Lemma teardown_releases (c : Call) (p : RTCPeerConnection) (s : MediaStream) :
  _pc c = Some p ->
  In s (localStreams p ++ remoteStreams p) ->
  In (CloseMediaStream s) (teardown_of c).
Proof.
  intros Hp Hs. unfold teardown_of. rewrite Hp.
  rewrite in_app_iff in Hs. rewrite !in_app_iff.
  destruct Hs as [Hs | Hs]; [left | right; left]; now apply in_map.
Qed.

(** C4, as the code has it.  Once the terminated flag is true no input
    clears it, and the inputs whose handlers test it ([terminate()],
    the timer, the request callbacks, the failure callbacks, the
    callbacks of the remote answer) then show nothing to the outside
    and leave the state and the RTCPeerConnection field alone.  The
    turn that sets the flag emits one 'terminated' notification,
    deregisters the call and tears the RTCPeerConnection down: every
    local and remote stream released, the engine closed once, the field
    null afterwards.  Over any run of a fresh call no engine object is
    closed twice. *)
Theorem terminated_is_final :
  (forall i e e',
      exec engine i e = Some e' ->
      _terminated (this e) = true ->
      _terminated (this e') = true
      /\ (guarded i = true -> untouched e e'))
  /\ (forall i e e',
        exec engine i e = Some e' ->
        _terminated (this e) = false ->
        _terminated (this e') = true ->
        finalizes e e')
  /\ (forall c,
        count is_close (teardown_of c)
        = match _pc c with
          | Some _ => 1%nat
          | None => 0%nat
          end
        /\ forall p s,
             _pc c = Some p ->
             In s (localStreams p ++ remoteStreams p) ->
             In (CloseMediaStream s) (teardown_of c))
  /\ (forall account inputs e,
        run engine inputs (boot account) = Some e ->
        forall n, (count (closes n) (trace e) <= 1)%nat).
Proof.
  split; [|split; [|split]].
  - intros i e e' He Ht. split.
    + destruct (flag_step_exec i e e' He) as [H | (H & _)]; congruence.
    + intro Hg. now apply (guarded_exec i).
  - intros i e e' He Hf Ht.
    destruct (flag_step_exec i e e' He) as [H | (_ & _ & H)]; [congruence | exact H].
  - intro c. split; [apply teardown_closes_once | apply teardown_releases].
  - intros account inputs e Hrun.
    apply (closed_at_most_once_run inputs (boot account) e Hrun).
    apply closed_at_most_once_boot.
Qed.

End Finality.

Lemma terminated_is_final_witness :
  exists e',
    exec browser_createDTMFSender Call_terminate hung_up = Some e'
    /\ _terminated (this e') = true
    /\ untouched hung_up e'.
Proof.
  assert (He : exec browser_createDTMFSender Call_terminate hung_up = Some hung_up)
    by (vm_compute; reflexivity).
  assert (Ht : _terminated (this hung_up) = true) by (vm_compute; reflexivity).
  destruct (proj1 (terminated_is_final browser_createDTMFSender)
              Call_terminate hung_up hung_up He Ht) as [H1 H2].
  exists hung_up. split; [exact He|]. split; [exact H1 | apply H2; reflexivity].
Defined.

(** C4, as the claim states it, fails.  Take an outgoing call that is
    terminated locally (the timer fired) before its offer was ready.
    The terminated flag is true, and yet the late success of the offer
    sends session-create, and a late candidate callback sends
    session-trickle. *)
Lemma late_callbacks_still_send :
  exists e,
    run browser_createDTMFSender
        [Call_terminate; Elapse 150; Settle (Timeout 150) (fulfilled None)] dialing
    = Some e
    /\ _terminated (this e) = true
    /\ (exists e',
          exec browser_createDTMFSender
               (Settle (CreateLocalSdp_offer "bob@example.com") (fulfilled (Some "v=0"))) e
          = Some e'
          /\ trace e'
             = trace e
               ++ [SendRequest (session_create "alice@example.com" (Some "id-1")
                                  "bob@example.com" (Some "v=0"))])
    /\ (exists e',
          exec browser_createDTMFSender (Fire_icecandidate (Some "candidate:1")) e
          = Some e'
          /\ trace e'
             = trace e
               ++ [SendRequest (session_trickle (Some "id-1") ["candidate:1"])]).
Proof.
  eexists. split; [vm_compute; reflexivity|]. split; [reflexivity|].
  split; eexists; split; vm_compute; reflexivity.
Qed.

(** ** More about teardown and call setup *)

Lemma torn_down_state (c : Call) : _state (torn_down c) = _state c.
Proof. unfold torn_down. destruct (_pc c); [destruct (_dtmfSender c)|]; reflexivity. Qed.

Lemma torn_down_id (c : Call) : _id (torn_down c) = _id c.
Proof. unfold torn_down. destruct (_pc c); [destruct (_dtmfSender c)|]; reflexivity. Qed.

Lemma torn_down_account (c : Call) : _account (torn_down c) = _account c.
Proof. unfold torn_down. destruct (_pc c); [destruct (_dtmfSender c)|]; reflexivity. Qed.

Lemma torn_down_localIdentity (c : Call) : _localIdentity (torn_down c) = _localIdentity c.
Proof. unfold torn_down. destruct (_pc c); [destruct (_dtmfSender c)|]; reflexivity. Qed.

Lemma torn_down_remoteIdentity (c : Call) :
  _remoteIdentity (torn_down c) = _remoteIdentity c.
Proof. unfold torn_down. destruct (_pc c); [destruct (_dtmfSender c)|]; reflexivity. Qed.

Lemma torn_down_incomingSdp (c : Call) : _incomingSdp (torn_down c) = _incomingSdp c.
Proof. unfold torn_down. destruct (_pc c); [destruct (_dtmfSender c)|]; reflexivity. Qed.


Lemma torn_down_without_pc (c : Call) : _pc c = None -> torn_down c = c.
Proof. intro H. unfold torn_down. now rewrite H. Qed.

Lemma teardown_without_pc (c : Call) : _pc c = None -> teardown_of c = [].
Proof. intro H. unfold teardown_of. now rewrite H. Qed.

Lemma initOutgoing_ok uuid to options stream e :
  In "@"%char (list_ascii_of_string to) ->
  localStream options = Some stream ->
  _pc (this e) = None ->
  _initOutgoing uuid to options e
  = Normal tt
      {| this :=
           set_pc (Some (fresh_pc e options stream))
             (set_remoteIdentity (Some {| uri := to; displayName := None |})
                (set_direction (Some "outgoing") (set_id (Some uuid) (this e))));
         trace := trace e ++ setup_of e options stream
                  ++ [CreateLocalSdp "offer" (offerOptions options)];
         pending := pending e ++ [CreateLocalSdp_offer to];
         clock := clock e;
         engines := S (engines e) |}.
Proof.
  intros Hat Hs Hpc. unfold _initOutgoing.
  destruct (indexOf to "@" =? -1) eqn:Hidx.
  - apply Z.eqb_eq in Hidx. apply indexOf_absent in Hidx. contradiction.
  - rewrite Hs. unfold fresh_pc, setup_of, config_of.
    open_env e. crank; rewrite <- ?app_assoc; reflexivity.
Qed.

Lemma answer_ok options stream e :
  _state (this e) = Some "incoming" ->
  localStream options = Some stream ->
  _pc (this e) = None ->
  answer options e
  = Normal tt
      {| this := set_pc (Some (fresh_pc e options stream)) (this e);
         trace := trace e ++ setup_of e options stream
                  ++ [PcSetRemoteDescription
                        {| sd_type := "offer"; sd_sdp := raw (_incomingSdp (this e)) |}];
         pending := pending e ++ [SetRemoteDescription_offer (answerOptions options)];
         clock := clock e;
         engines := S (engines e) |}.
Proof.
  intros Hst Hs Hpc. unfold answer, bind, read. rewrite Hst. cbn. rewrite Hs.
  unfold fresh_pc, setup_of, config_of.
  open_env e. crank; rewrite <- ?app_assoc; reflexivity.
Qed.

(** ** Scenarios and invariants of the whole class *)

Section Scenarios.
Variable engine :
  RTCPeerConnection -> js MediaStreamTrack -> reply (option RTCDTMFSender).

Ltac turn :=
  cbn [run];
  first [ rewrite exec_Elapse by lia
        | unfold exec at 1; cbn [dispatch option_map env_of] ].

Ltac fire :=
  cbn [run];
  match goal with
  | |- context [exec engine (Settle ?t ?o) ?e] =>
      let rest := fresh "rest" in
      let Hr := fresh "Hr" in
      destruct (exec_Settle engine t o e) as [rest Hr];
      [ cbn; try (apply Z.leb_le; lia); reflexivity
      | cbn; rewrite ?in_app_iff; cbn; auto 10
      | rewrite Hr; cbn [settle] ]
  end.

(** X1. A valid [_initOutgoing] followed by the success of the offer
    sends one session-create message carrying the account id, the
    generated id, the uri and the offer; nothing is sent before the
    offer is ready, and [_state] and the terminated flag are as before. *)
Theorem outgoing_offer_is_sent uuid to options stream offer e :
  In "@"%char (list_ascii_of_string to) ->
  localStream options = Some stream ->
  _pc (this e) = None ->
  exists e',
    run engine [Call_initOutgoing uuid to options;
                Settle (CreateLocalSdp_offer to) (fulfilled offer)] e = Some e'
    /\ trace e'
       = trace e ++ setup_of e options stream
         ++ [CreateLocalSdp "offer" (offerOptions options);
             SendRequest (session_create (account_id (_account (this e)))
                            (Some uuid) to offer)]
    /\ _state (this e') = _state (this e)
    /\ _terminated (this e') = _terminated (this e)
    /\ In Request_call (pending e').
Proof.
  intros Hat Hs Hpc. turn. rewrite (initOutgoing_ok uuid to options stream e Hat Hs Hpc).
  fire. unfold offer_created, _sendCall, _sendRequest, perform, defer, bind, read. cbn.
  eexists. split; [reflexivity|]. cbn. rewrite <- ?app_assoc. cbn.
  repeat split; auto. rewrite in_app_iff. cbn. auto.
Qed.

(** X2. When the offer cannot be created, the outgoing call is terminated
    locally with the rejection as reason: no request is ever sent, the
    local stream is released, the engine closed, and [_state] itself
    is left as it was. *)
Theorem outgoing_offer_failure uuid to options stream why e :
  In "@"%char (list_ascii_of_string to) ->
  localStream options = Some stream ->
  _pc (this e) = None ->
  _terminated (this e) = false ->
  exists e',
    run engine [Call_initOutgoing uuid to options;
                Settle (CreateLocalSdp_offer to) (rejected why)] e = Some e'
    /\ trace e'
       = trace e ++ setup_of e options stream
         ++ [CreateLocalSdp "offer" (offerOptions options);
             CallsDelete (Some uuid); CloseMediaStream stream; PcClose (engines e)]
         ++ match _dtmfSender (this e) with
            | Some _ => [DtmfRemoveEventListener]
            | None => []
            end
         ++ [Emit (stateChanged (_state (this e)) (Some "terminated")
                     (with_reason (Some why)))]
    /\ _terminated (this e') = true
    /\ _pc (this e') = None
    /\ _state (this e') = _state (this e).
Proof.
  intros Hat Hs Hpc Ht. turn. rewrite (initOutgoing_ok uuid to options stream e Hat Hs Hpc).
  fire. unfold offer_created. rewrite localTerminate_live by (cbn; exact Ht).
  eexists. split; [reflexivity|]. cbn.
  split; [|split; [|split]].
  - unfold teardown_of. cbn. rewrite <- ?app_assoc. cbn.
    destruct (_dtmfSender (this e)); reflexivity.
  - rewrite torn_down_terminated. reflexivity.
  - apply torn_down_pc.
  - unfold torn_down. cbn. destruct (_dtmfSender (this e)); reflexivity.
Qed.

Lemma initIncoming_spec id caller offer e :
  _initIncoming id caller offer e
  = Normal tt
      (with_this
         (set_state (Some "incoming")
            (set_direction (Some "incoming")
               (set_incomingSdp offer
                  (set_remoteIdentity
                     (Some {| uri := caller_uri caller;
                              displayName := display_name caller |})
                     (set_id id (this e))))))
         e).
Proof. destruct e as [c tr pd ck en]. reflexivity. Qed.

(** X4. An incoming call that is answered, whose remote offer the engine
    accepts and whose answer description is created, sends one
    session-answer message with the invite's id and that description;
    the state stays 'incoming' throughout. *)
Theorem incoming_answer_is_sent id caller offer options stream v answer_sdp e :
  localStream options = Some stream ->
  _pc (this e) = None ->
  exists e',
    run engine [Call_initIncoming id caller offer;
                Call_answer options;
                Settle (SetRemoteDescription_offer (answerOptions options)) (fulfilled v);
                Settle CreateLocalSdp_answer (fulfilled answer_sdp)] e = Some e'
    /\ trace e'
       = trace e ++ setup_of e options stream
         ++ [PcSetRemoteDescription {| sd_type := "offer"; sd_sdp := raw offer |};
             CreateLocalSdp "answer" (answerOptions options);
             SendRequest (session_answer id answer_sdp)]
    /\ _state (this e') = Some "incoming"
    /\ _direction (this e') = Some "incoming"
    /\ _remoteIdentity (this e')
       = Some {| uri := caller_uri caller; displayName := display_name caller |}
    /\ In Request_answer (pending e').
Proof.
  intros Hs Hpc. turn. rewrite initIncoming_spec. turn.
  rewrite (answer_ok options stream) by (cbn; auto).
  fire. unfold answer_described, createLocalSdp, perform, defer, bind. cbn.
  fire. unfold answer_created, _sendAnswer, _sendRequest, perform, defer, bind, read. cbn.
  eexists. split; [reflexivity|]. cbn. rewrite <- ?app_assoc. cbn.
  repeat split; auto. rewrite in_app_iff. cbn. auto.
Qed.

(** X5. When the engine refuses the remote offer of an answered call, the
    call is ended through [terminate()]: session-terminate is sent, and
    with no reply the listeners are told reason '200 OK' after 150ms;
    the engine's error appears nowhere. *)
Theorem incoming_offer_rejected_by_engine options stream error e :
  _state (this e) = Some "incoming" ->
  localStream options = Some stream ->
  _pc (this e) = None ->
  _terminated (this e) = false ->
  exists e',
    run engine [Call_answer options;
                Settle (SetRemoteDescription_offer (answerOptions options)) (rejected error);
                Elapse 150;
                Settle (Timeout (clock e + 150)) (fulfilled None)] e = Some e'
    /\ trace e'
       = trace e ++ setup_of e options stream
         ++ [PcSetRemoteDescription
               {| sd_type := "offer"; sd_sdp := raw (_incomingSdp (this e)) |};
             SendRequest (session_terminate (_id (this e))); SetTimeout 150;
             CallsDelete (_id (this e)); CloseMediaStream stream; PcClose (engines e)]
         ++ match _dtmfSender (this e) with
            | Some _ => [DtmfRemoveEventListener]
            | None => []
            end
         ++ [Emit (stateChanged (Some "incoming") (Some "terminated")
                     (with_reason (Some "200 OK")))].
Proof.
  intros Hst Hs Hpc Ht. turn. rewrite (answer_ok options stream e Hst Hs Hpc).
  fire. unfold answer_described. rewrite terminate_live by (cbn; exact Ht).
  turn. fire. rewrite terminate_timeout_live by (cbn; exact Ht).
  eexists. split; [reflexivity|]. cbn.
  unfold teardown_of. cbn. rewrite Hst. rewrite <- ?app_assoc. cbn.
  destruct (_dtmfSender (this e)); reflexivity.
Qed.

(** X6. After a successful [answer()] every further [answer()] with a
    stream throws 'RTCPeerConnection already initialized' and changes
    nothing. *)
Theorem answer_only_once options stream e :
  _state (this e) = Some "incoming" ->
  localStream options = Some stream ->
  _pc (this e) = None ->
  let e1 := env_of (answer options e) in
  forall options' stream',
    localStream options' = Some stream' ->
    answer options' e1 = Throw "RTCPeerConnection already initialized" e1.
Proof.
  intros Hst Hs Hpc e1 options' stream' Hs'. subst e1.
  rewrite (answer_ok options stream e Hst Hs Hpc). cbn [env_of].
  unfold answer, _initRTCPeerConnection, bind, read. cbn. rewrite Hst. cbn.
  rewrite Hs'. reflexivity.
Qed.

(** X8. [_initOutgoing] with valid arguments on a call that already has a
    RTCPeerConnection throws, but only after it has overwritten the
    id, the direction and the remote identity. *)
Theorem initOutgoing_on_initialized_call uuid to options stream p e :
  In "@"%char (list_ascii_of_string to) ->
  localStream options = Some stream ->
  _pc (this e) = Some p ->
  _initOutgoing uuid to options e
  = Throw "RTCPeerConnection already initialized"
      (with_this
         (set_remoteIdentity (Some {| uri := to; displayName := None |})
            (set_direction (Some "outgoing") (set_id (Some uuid) (this e))))
         e).
Proof.
  intros Hat Hs Hpc. unfold _initOutgoing.
  destruct (indexOf to "@" =? -1) eqn:Hidx.
  - apply Z.eqb_eq in Hidx. apply indexOf_absent in Hidx. contradiction.
  - rewrite Hs. unfold _initRTCPeerConnection, bind, read, write. cbn. rewrite Hpc.
    destruct e as [c tr pd ck en]. reflexivity.
Qed.

(** X9. A message that is not a state event changes nothing.  A state
    event always stores the reported state, and adds exactly one
    stateChanged notification, except for an 'established' report on
    an outgoing call whose setup is in progress, which adds none. *)
Theorem state_event_effect message e :
  (event message <> "state" -> _handleEvent message e = Normal tt e)
  /\ (event message = "state" ->
      let e' := env_of (_handleEvent message e) in
      let deferred :=
        strict_eq (state message) "established"
        && strict_eq (_direction (this e)) "outgoing"
        && _setup_in_progress (this e) in
      _state (this e') = state message
      /\ count is_stateChanged (trace e')
         = (count is_stateChanged (trace e) + if deferred then 0 else 1)%nat).
Proof.
  split.
  - intro H. unfold _handleEvent. apply String.eqb_neq in H. now rewrite H.
  - intros H e' deferred. subst e' deferred. unfold _handleEvent. rewrite H.
    destruct (strict_eq (state message) "established") eqn:Hest.
    + apply strict_eq_true in Hest. rewrite Hest.
      open_env e. crank; rewrite ?torn_down_state; split; auto; tally.
    + open_env e. crank; rewrite ?torn_down_state; split; auto; tally.
Qed.

(** X10. On a call that is not outgoing, every state report other than
    'terminated' (so also 'accepted' and 'established') only stores
    the state and notifies: the engine is not touched and nothing is
    deferred. *)
Theorem state_event_on_incoming_call message e :
  event message = "state" ->
  _direction (this e) <> Some "outgoing" ->
  state message <> Some "terminated" ->
  _handleEvent message e
  = Normal tt
      (with_trace
         (trace e ++ [Emit (stateChanged (_state (this e)) (state message) no_data)])
         (with_this (set_state (state message) (this e)) e)).
Proof.
  intros Hev Hdir Hst. unfold _handleEvent. rewrite Hev.
  assert (Hd : strict_eq (_direction (this e)) "outgoing" = false).
  { destruct (strict_eq (_direction (this e)) "outgoing") eqn:H; [|reflexivity].
    apply strict_eq_true in H. contradiction. }
  assert (Ht : strict_eq (state message) "terminated" = false).
  { destruct (strict_eq (state message) "terminated") eqn:H; [|reflexivity].
    apply strict_eq_true in H. contradiction. }
  unfold emit, perform, bind, read, write. cbn. rewrite Hd, Ht, !andb_false_r. reflexivity.
Qed.

(** X11. An 'accepted' report on an outgoing call without RTCPeerConnection
    throws a TypeError after the state is stored, the notification
    emitted and [_setup_in_progress] set; an 'established' report that
    follows is therefore deferred, with no callback pending to replay
    it. *)
Theorem accepted_without_peer_connection message e :
  event message = "state" ->
  state message = Some "accepted" ->
  _direction (this e) = Some "outgoing" ->
  _pc (this e) = None ->
  let e1 :=
    with_trace
      (trace e ++ [Emit (stateChanged (_state (this e)) (Some "accepted") no_data)])
      (with_this
         (set_setup_in_progress true (set_state (Some "accepted") (this e))) e) in
  _handleEvent message e = Throw "TypeError: this._pc is null" e1
  /\ forall established,
       event established = "state" ->
       state established = Some "established" ->
       _handleEvent established e1
       = Normal tt
           (with_this
              (set_delay_established true (set_state (Some "established") (this e1)))
              e1).
Proof.
  intros Hev Hst Hdir Hpc e1. subst e1. split.
  - unfold _handleEvent. rewrite Hev, Hst.
    unfold pc_setRemoteDescription, on_pc, emit, perform, bind, read, write, throw.
    cbn. rewrite Hdir. cbn. rewrite Hpc. reflexivity.
  - intros established Hev2 Hst2. unfold _handleEvent. rewrite Hev2, Hst2.
    unfold emit, perform, bind, read, write. cbn. rewrite Hdir. reflexivity.
Qed.

Lemma handleEvent_accepted message p e :
  event message = "state" ->
  state message = Some "accepted" ->
  _direction (this e) = Some "outgoing" ->
  _pc (this e) = Some p ->
  _handleEvent message e
  = Normal tt
      (with_pending (pending e ++ [SetRemoteDescription_answer])
         (with_trace
            (trace e
             ++ [Emit (stateChanged (_state (this e)) (Some "accepted") no_data);
                 PcSetRemoteDescription
                   {| sd_type := "answer"; sd_sdp := munged (sdp message) |}])
            (with_this
               (set_setup_in_progress true (set_state (Some "accepted") (this e)))
               e))).
Proof.
  intros Hev Hst Hdir Hpc. unfold _handleEvent. rewrite Hev, Hst.
  unfold pc_setRemoteDescription, on_pc, emit, perform, defer, bind, read, write.
  cbn. rewrite Hdir. cbn. rewrite Hpc. cbn. rewrite <- ?app_assoc. reflexivity.
Qed.

(** X12. When applying the remote answer fails, the failure callback calls
    [terminate()] and leaves [_setup_in_progress] set: an 'established'
    report that follows is stored but never announced. *)
Theorem failed_answer_silences_established accepted established error p e :
  event accepted = "state" -> state accepted = Some "accepted" ->
  event established = "state" -> state established = Some "established" ->
  _direction (this e) = Some "outgoing" ->
  _pc (this e) = Some p ->
  _terminated (this e) = false ->
  exists e',
    run engine [Call_handleEvent accepted;
                Settle SetRemoteDescription_answer (rejected error);
                Call_handleEvent established] e = Some e'
    /\ trace e'
       = trace e
         ++ [Emit (stateChanged (_state (this e)) (Some "accepted") no_data);
             PcSetRemoteDescription
               {| sd_type := "answer"; sd_sdp := munged (sdp accepted) |};
             SendRequest (session_terminate (_id (this e))); SetTimeout 150]
    /\ _state (this e') = Some "established"
    /\ _setup_in_progress (this e') = true
    /\ _delay_established (this e') = true.
Proof.
  intros Hev1 Hst1 Hev2 Hst2 Hdir Hpc Ht. turn.
  rewrite (handleEvent_accepted accepted p e Hev1 Hst1 Hdir Hpc).
  fire. unfold accept_described. rewrite terminate_live by (cbn; exact Ht).
  turn. unfold _handleEvent. rewrite Hev2, Hst2.
  unfold emit, perform, bind, read, write. cbn. rewrite Hdir. cbn.
  eexists. split; [reflexivity|]. cbn. rewrite <- ?app_assoc. auto.
Qed.

(** X7. Local termination leaves [_state] alone, so an incoming call that
    was terminated by the timer still passes the state test of
    [answer()]: a RTCPeerConnection is created on the terminated call. *)
Theorem answer_after_local_termination options stream e :
  _state (this e) = Some "incoming" ->
  localStream options = Some stream ->
  _pc (this e) = None ->
  _terminated (this e) = false ->
  exists e',
    run engine [Call_terminate; Elapse 150;
                Settle (Timeout (clock e + 150)) (fulfilled None);
                Call_answer options] e = Some e'
    /\ _terminated (this e') = true
    /\ _state (this e') = Some "incoming"
    /\ _pc (this e') = Some (fresh_pc e options stream)
    /\ trace e'
       = trace e
         ++ [SendRequest (session_terminate (_id (this e))); SetTimeout 150;
             CallsDelete (_id (this e));
             Emit (stateChanged (Some "incoming") (Some "terminated")
                     (with_reason (Some "200 OK")))]
         ++ setup_of e options stream
         ++ [PcSetRemoteDescription
               {| sd_type := "offer"; sd_sdp := raw (_incomingSdp (this e)) |}].
Proof.
  intros Hst Hs Hpc Ht. turn. rewrite terminate_live by exact Ht. turn. fire.
  rewrite terminate_timeout_live by (cbn; exact Ht). cbn [this with_pending with_clock with_trace env_of trace].
  rewrite (torn_down_without_pc (set_terminated true (this e))) by exact Hpc.
  rewrite (teardown_without_pc (this e)) by exact Hpc.
  turn. rewrite (answer_ok options stream) by (cbn; auto).
  eexists. split; [reflexivity|]. cbn. rewrite Hst. rewrite <- ?app_assoc. auto.
Qed.

Ltac finish_count :=
  unfold count; rewrite ?filter_app, ?length_app;
  rewrite ?filter_released by reflexivity;
  rewrite ?filter_teardown by reflexivity;
  cbn;
  repeat match goal with H : strict_eq _ _ = _ |- _ => rewrite H end;
  cbn; lia.

Ltac finish_leaf :=
  rewrite ?torn_down_terminated; cbn;
  first
    [ left; split; [reflexivity|]; split; finish_count
    | right; split; [reflexivity|]; split; [reflexivity|]; split; finish_count ].

Ltac finish_cases e :=
  unfold finish_step;
  destruct (_terminated (this e)) eqn:?; open_env e; crank; finish_leaf.

Lemma finish_step_handleEvent m e :
  (reports_terminated (Call_handleEvent m) = true -> _terminated (this e) = false) ->
  finish_step e (env_of (_handleEvent m e)).
Proof.
  intro Hr. cbn in Hr.
  destruct (String.eqb (event m) "state") eqn:Hev.
  - destruct (strict_eq (state m) "terminated") eqn:Hs.
    + specialize (Hr eq_refl). apply strict_eq_true in Hs.
      unfold _handleEvent. rewrite Hev, Hs.
      unfold finish_step. open_env e. crank; finish_leaf.
    + unfold _handleEvent. rewrite Hev. finish_cases e.
  - unfold _handleEvent. rewrite Hev. left. auto.
Qed.

Lemma finish_step_settle t o e : finish_step e (env_of (settle t o e)).
Proof. destruct t, o; cbn [settle]; finish_cases e. Qed.

Lemma finish_step_exec i e e' :
  exec engine i e = Some e' ->
  (reports_terminated i = true -> _terminated (this e) = false) ->
  finish_step e e'.
Proof.
  unfold exec. destruct i; cbn [dispatch option_map]; intros He Hr.
  - injection He as <-. finish_cases e.
  - injection He as <-. finish_cases e.
  - injection He as <-. finish_cases e.
  - injection He as <-. finish_cases e.
  - injection He as <-. finish_cases e.
  - injection He as <-. now apply finish_step_handleEvent.
  - destruct (due_now t e); [|discriminate].
    destruct (take t (pending e)) as [rest|]; [|discriminate].
    injection He as <-. apply (finish_step_settle t o (with_pending rest e)).
  - destruct (has_engine e); [|discriminate]. injection He as <-. finish_cases e.
  - destruct (has_engine e); [|discriminate]. injection He as <-. finish_cases e.
  - destruct (has_sender e); [|discriminate]. injection He as <-. finish_cases e.
  - destruct (0 <=? ms); [|discriminate]. injection He as <-. finish_cases e.
Qed.

Lemma finished_once_step i e e' :
  exec engine i e = Some e' ->
  (reports_terminated i = true -> _terminated (this e) = false) ->
  finished_once e ->
  finished_once e'.
Proof.
  intros He Hr [Ha Hd].
  destruct (finish_step_exec i e e' He Hr) as [(Ht & H1 & H2) | (Hf & Ht & H1 & H2)];
    unfold finished_once; rewrite H1, H2, Ht.
  - auto.
  - rewrite Ha, Hd, Hf. auto.
Qed.

(** X14. Over any run of a fresh call in which no 'terminated' report
    reaches the call once its flag is set, the listeners are told
    'terminated' exactly once and the call leaves the registry exactly
    once if the flag is set, and never otherwise. *)
Theorem terminated_announced_once account inputs e :
  run engine inputs (boot account) = Some e ->
  deliverable engine inputs (boot account) = true ->
  finished_once e.
Proof.
  assert (H : forall e0, finished_once e0 ->
                         run engine inputs e0 = Some e ->
                         deliverable engine inputs e0 = true -> finished_once e).
  { induction inputs as [|i inputs IH]; intros e0 H0; cbn.
    - now intros [= <-].
    - destruct (exec engine i e0) as [e1|] eqn:He1; [|discriminate].
      intros Hrun Hd. apply andb_prop in Hd as [Hhere Hrest].
      apply (IH e1); auto.
      apply (finished_once_step i e0 e1 He1); [|exact H0].
      intro Hr. rewrite Hr in Hhere. cbn in Hhere.
      now destruct (_terminated (this e0)). }
  intros Hrun Hd. apply (H (boot account)); auto. split; reflexivity.
Qed.

(** X16. Two [sendDtmf] calls on a call with a local audio track create
    the sender and register its listener once, bound to the first
    audio track of the first local stream, and insert both tone
    sequences, with 100 and 70 for a missing duration and gap. *)
Theorem tone_sender_is_made_once tones1 d1 g1 tones2 d2 g2 e p s rest t ts sender :
  _dtmfSender (this e) = None ->
  _pc (this e) = Some p ->
  localStreams p = s :: rest ->
  audioTracks s = t :: ts ->
  engine p (obj t) = returns (Some sender) ->
  exists e',
    run engine [Call_sendDtmf tones1 d1 g1; Call_sendDtmf tones2 d2 g2] e = Some e'
    /\ _dtmfSender (this e') = Some sender
    /\ trace e'
       = trace e
         ++ [PcCreateDTMFSender (obj t); DtmfAddEventListener;
             InsertDTMF tones1 (or_default d1 100) (or_default g1 70);
             InsertDTMF tones2 (or_default d2 100) (or_default g2 70)].
Proof.
  intros Hd Hp Hs Ht He. turn.
  rewrite (sendDtmf_creates_sender engine tones1 d1 g1 e p s rest t ts sender Hd Hp Hs Ht He).
  turn. rewrite (sendDtmf_reuses_sender engine tones2 d2 g2 _ sender) by reflexivity.
  eexists. split; [reflexivity|]. cbn. rewrite <- ?app_assoc. auto.
Qed.

(** X17. [_closeRTCPeerConnection] after [_closeRTCPeerConnection] does
    nothing, and after a real teardown [sendDtmf] does nothing either:
    the sender is gone with the engine. *)
Theorem teardown_is_idempotent e :
  let e1 := env_of (_closeRTCPeerConnection e) in
  _closeRTCPeerConnection e1 = Normal tt e1
  /\ (_pc (this e) <> None ->
      forall tones d g, sendDtmf engine tones d g e1 = Normal tt e1).
Proof.
  intro e1.
  assert (He1 : e1 = with_this (torn_down (this e))
                       (with_trace (trace e ++ teardown_of (this e)) e))
    by (subst e1; now rewrite closeRTCPeerConnection_spec).
  clearbody e1.
  assert (Hp : _pc (this e1) = None) by (subst e1; apply torn_down_pc).
  assert (Hd : _pc (this e) <> None -> _dtmfSender (this e1) = None).
  { intro Hpc. subst e1. cbn. unfold torn_down.
    destruct (_pc (this e)); [|contradiction].
    destruct (_dtmfSender (this e)) eqn:Hd; cbn; auto. }
  clear He1. split.
  - rewrite closeRTCPeerConnection_spec.
    rewrite (torn_down_without_pc _ Hp), (teardown_without_pc _ Hp), app_nil_r.
    destruct e1; reflexivity.
  - intros Hpc tones d g. apply sendDtmf_without_pc; auto.
Qed.


Ltac identity_leaf :=
  unfold same_identity; cbn;
  rewrite ?torn_down_account, ?torn_down_localIdentity, ?torn_down_id,
    ?torn_down_direction, ?torn_down_remoteIdentity, ?torn_down_incomingSdp;
  cbn; repeat split; reflexivity.

Lemma identity_step i e e' :
  exec engine i e = Some e' ->
  (_account (this e') = _account (this e)
   /\ _localIdentity (this e') = _localIdentity (this e))
  /\ (is_init i = false -> same_identity (this e) (this e')).
Proof.
  unfold exec. destruct i; cbn [dispatch option_map is_init]; intro He.
  - injection He as <-. split; [|discriminate]. open_env e. crank; identity_leaf.
  - injection He as <-. split; [|discriminate]. open_env e. crank; identity_leaf.
  - injection He as <-. open_env e. crank; identity_leaf.
  - injection He as <-. open_env e. crank; identity_leaf.
  - injection He as <-. open_env e. crank; identity_leaf.
  - injection He as <-. open_env e. crank; identity_leaf.
  - destruct (due_now t e); [|discriminate].
    destruct (take t (pending e)) as [rest|]; [|discriminate].
    injection He as <-.
    destruct t, o; cbn [settle]; open_env e; crank; identity_leaf.
  - destruct (has_engine e); [|discriminate]. injection He as <-.
    open_env e. crank; identity_leaf.
  - destruct (has_engine e); [|discriminate]. injection He as <-.
    open_env e. crank; identity_leaf.
  - destruct (has_sender e); [|discriminate]. injection He as <-.
    open_env e. crank; identity_leaf.
  - destruct (0 <=? ms); [|discriminate]. injection He as <-.
    open_env e. crank; identity_leaf.
Qed.

(** X18. Over any run of a fresh call the account and the local identity
    are those of the constructor; over any run without initializer the
    id, the direction, the remote identity and the stored offer do not
    change either. *)
Theorem identity_is_fixed :
  (forall account inputs e,
      run engine inputs (boot account) = Some e ->
      _account (this e) = account
      /\ _localIdentity (this e)
         = {| uri := account_id account; displayName := account_displayName account |})
  /\ (forall inputs e e',
        forallb (fun i => negb (is_init i)) inputs = true ->
        run engine inputs e = Some e' ->
        same_identity (this e) (this e')).
Proof.
  split.
  - intros account inputs e.
    assert (H : forall e0, run engine inputs e0 = Some e ->
                           _account (this e) = _account (this e0)
                           /\ _localIdentity (this e) = _localIdentity (this e0)).
    { induction inputs as [|i inputs IH]; intros e0; cbn.
      - intros [= <-]. auto.
      - destruct (exec engine i e0) as [e1|] eqn:He1; [|discriminate].
        intro Hrun. destruct (IH e1 Hrun) as [Ha Hl].
        destruct (identity_step i e0 e1 He1) as [[Ha1 Hl1] _].
        split; congruence. }
    intro Hrun. apply (H (boot account) Hrun).
  - induction inputs as [|i inputs IH]; intros e e'; cbn.
    + intros _ [= <-]. unfold same_identity. auto 10.
    + intro Hn. apply andb_prop in Hn as [Hi Hn].
      destruct (exec engine i e) as [e1|] eqn:He1; [|discriminate].
      intro Hrun.
      destruct (identity_step i e e1 He1) as [_ H1].
      specialize (H1 (proj1 (negb_true_iff _) Hi)).
      specialize (IH e1 e' Hn Hrun).
      unfold same_identity in *. intuition congruence.
Qed.




(** X3. A candidate found before the offer is ready is sent at once:
    its session-trickle message goes out before session-create. *)
Theorem candidates_may_precede_the_offer uuid to options stream candidate offer e :
  In "@"%char (list_ascii_of_string to) ->
  localStream options = Some stream ->
  _pc (this e) = None ->
  exists e',
    run engine [Call_initOutgoing uuid to options;
                Fire_icecandidate candidate;
                Settle (CreateLocalSdp_offer to) (fulfilled offer)] e = Some e'
    /\ trace e'
       = trace e ++ setup_of e options stream
         ++ [CreateLocalSdp "offer" (offerOptions options);
             SendRequest (session_trickle (Some uuid) (candidates_of candidate));
             SendRequest (session_create (account_id (_account (this e)))
                            (Some uuid) to offer)].
Proof.
  intros Hat Hs Hpc. turn. rewrite (initOutgoing_ok uuid to options stream e Hat Hs Hpc).
  turn. unfold has_engine. cbn [engines Nat.ltb Nat.leb option_map].
  unfold on_icecandidate. rewrite sendTrickle_sends_one. cbn [env_of].
  fire. unfold offer_created, _sendCall, _sendRequest, perform, defer, bind, read. cbn.
  eexists. split; [reflexivity|]. cbn. rewrite <- ?app_assoc. reflexivity.
Qed.

(** X13. A state event reporting 'terminated' on a call that is already
    terminated is handled like the first: another notification and
    another deregistration. *)
Theorem remote_terminated_is_not_guarded message e :
  event message = "state" ->
  state message = Some "terminated" ->
  _terminated (this e) = true ->
  _pc (this e) = None ->
  exists e',
    _handleEvent message e = Normal tt e'
    /\ trace e'
       = trace e
         ++ [Emit (stateChanged (_state (this e)) (Some "terminated")
                     (with_reason (reason message)));
             CallsDelete (_id (this e))]
    /\ _state (this e') = Some "terminated"
    /\ pending e' = pending e.
Proof.
  intros Hev Hst Ht Hpc. rewrite (handleEvent_terminated message e Hev Hst).
  eexists. split; [reflexivity|]. cbn.
  rewrite (teardown_without_pc (this e) Hpc), torn_down_state. auto.
Qed.
End Scenarios.

Lemma bob_has_at : In "@"%char (list_ascii_of_string "bob@example.com").
Proof. cbn. tauto. Qed.

Lemma outgoing_offer_is_sent_witness :
  exists e',
    run browser_createDTMFSender
        [Call_initOutgoing "id-1" "bob@example.com" (with_stream microphone);
         Settle (CreateLocalSdp_offer "bob@example.com") (fulfilled (Some "v=0"))]
        (boot alice) = Some e'
    /\ In Request_call (pending e').
Proof.
  destruct (outgoing_offer_is_sent browser_createDTMFSender "id-1" "bob@example.com"
              (with_stream microphone) microphone (Some "v=0") (boot alice)
              bob_has_at eq_refl eq_refl) as (e' & Hrun & _ & _ & _ & Hp).
  exists e'. split; assumption.
Defined.

Lemma outgoing_offer_failure_witness :
  exists e',
    run browser_createDTMFSender
        [Call_initOutgoing "id-1" "bob@example.com" (with_stream microphone);
         Settle (CreateLocalSdp_offer "bob@example.com") (rejected "NotAllowedError")]
        (boot alice) = Some e'
    /\ _terminated (this e') = true
    /\ _pc (this e') = None.
Proof.
  destruct (outgoing_offer_failure browser_createDTMFSender "id-1" "bob@example.com"
              (with_stream microphone) microphone "NotAllowedError" (boot alice)
              bob_has_at eq_refl eq_refl eq_refl) as (e' & Hrun & _ & Ht & Hp & _).
  exists e'. auto.
Defined.

Lemma incoming_answer_is_sent_witness :
  exists e',
    run browser_createDTMFSender
        [Call_initIncoming (Some "s1") {| caller_uri := "bob@x.com"; display_name := None |}
           (Some "v=0...");
         Call_answer (with_stream microphone);
         Settle (SetRemoteDescription_offer None) (fulfilled None);
         Settle CreateLocalSdp_answer (fulfilled (Some "v=0 answer"))]
        (boot alice) = Some e'
    /\ In Request_answer (pending e').
Proof.
  destruct (incoming_answer_is_sent browser_createDTMFSender (Some "s1")
              {| caller_uri := "bob@x.com"; display_name := None |} (Some "v=0...")
              (with_stream microphone) microphone None (Some "v=0 answer") (boot alice)
              eq_refl eq_refl) as (e' & Hrun & _ & _ & _ & _ & Hp).
  exists e'. auto.
Defined.

Lemma incoming_offer_rejected_by_engine_witness :
  exists e',
    run browser_createDTMFSender
        [Call_answer (with_stream microphone);
         Settle (SetRemoteDescription_offer None) (rejected "InvalidAccessError");
         Elapse 150;
         Settle (Timeout 150) (fulfilled None)] ringing = Some e'.
Proof.
  destruct (incoming_offer_rejected_by_engine browser_createDTMFSender
              (with_stream microphone) microphone "InvalidAccessError" ringing
              eq_refl eq_refl eq_refl eq_refl) as (e' & Hrun & _).
  exists e'. exact Hrun.
Defined.

Lemma answer_only_once_witness :
  answer (with_stream microphone) (env_of (answer (with_stream microphone) ringing))
  = Throw "RTCPeerConnection already initialized"
      (env_of (answer (with_stream microphone) ringing)).
Proof.
  exact (answer_only_once (with_stream microphone) microphone ringing
           eq_refl eq_refl eq_refl (with_stream microphone) microphone eq_refl).
Defined.

Lemma initOutgoing_on_initialized_call_witness :
  exists e',
    _initOutgoing "id-9" "bob@example.com" (with_stream microphone) dialing
    = Throw "RTCPeerConnection already initialized" e'
    /\ _id (this e') = Some "id-9".
Proof.
  eexists. split.
  - exact (initOutgoing_on_initialized_call "id-9" "bob@example.com"
             (with_stream microphone) microphone
             {| pc_serial := 0; pc_config := {| iceServers := [] |};
                localStreams := [microphone]; remoteStreams := [] |}
             dialing bob_has_at eq_refl eq_refl).
  - reflexivity.
Defined.

Lemma state_event_effect_witness :
  _state (this (env_of (_handleEvent (state_event "ringing" None) dialing)))
  = Some "ringing".
Proof.
  exact (proj1 (proj2 (state_event_effect (state_event "ringing" None) dialing) eq_refl)).
Defined.

Lemma state_event_on_incoming_call_witness :
  _handleEvent (state_event "accepted" None) ringing
  = Normal tt
      (with_trace
         (trace ringing
          ++ [Emit (stateChanged (_state (this ringing)) (Some "accepted") no_data)])
         (with_this (set_state (Some "accepted") (this ringing)) ringing)).
Proof.
  apply (state_event_on_incoming_call (state_event "accepted" None) ringing);
    [reflexivity | discriminate | discriminate].
Defined.

Lemma accepted_without_peer_connection_witness :
  exists e1,
    _handleEvent (state_event "accepted" None) hung_up
    = Throw "TypeError: this._pc is null" e1
    /\ _setup_in_progress (this e1) = true.
Proof.
  eexists. split.
  - exact (proj1 (accepted_without_peer_connection (state_event "accepted" None) hung_up
                    eq_refl eq_refl eq_refl eq_refl)).
  - reflexivity.
Defined.

Lemma failed_answer_silences_established_witness :
  exists e',
    run browser_createDTMFSender
        [Call_handleEvent (state_event "accepted" None);
         Settle SetRemoteDescription_answer (rejected "InvalidAccessError");
         Call_handleEvent (state_event "established" None)] dialing = Some e'
    /\ _delay_established (this e') = true.
Proof.
  destruct (failed_answer_silences_established browser_createDTMFSender
              (state_event "accepted" None) (state_event "established" None)
              "InvalidAccessError"
              {| pc_serial := 0; pc_config := {| iceServers := [] |};
                 localStreams := [microphone]; remoteStreams := [] |}
              dialing eq_refl eq_refl eq_refl eq_refl eq_refl eq_refl eq_refl)
    as (e' & Hrun & _ & _ & _ & Hd).
  exists e'. auto.
Defined.

Lemma answer_after_local_termination_witness :
  exists e',
    run browser_createDTMFSender
        [Call_terminate; Elapse 150; Settle (Timeout 150) (fulfilled None);
         Call_answer (with_stream microphone)] ringing = Some e'
    /\ _terminated (this e') = true
    /\ _pc (this e') = Some (fresh_pc ringing (with_stream microphone) microphone).
Proof.
  destruct (answer_after_local_termination browser_createDTMFSender
              (with_stream microphone) microphone ringing
              eq_refl eq_refl eq_refl eq_refl) as (e' & Hrun & Ht & _ & Hp & _).
  exists e'. auto.
Defined.

Lemma terminated_announced_once_witness :
  finished_once hung_up.
Proof.
  apply (terminated_announced_once browser_createDTMFSender alice
           [Call_initOutgoing "id-1" "bob@example.com" (with_stream microphone);
            Call_handleEvent (state_event "terminated" (Some "486 Busy Here"))]);
    vm_compute; reflexivity.
Defined.

Lemma tone_sender_is_made_once_witness :
  exists e',
    run browser_createDTMFSender
        [Call_sendDtmf "1" None None; Call_sendDtmf "2#" (Some 200) None] dialing = Some e'
    /\ trace e'
       = trace dialing
         ++ [PcCreateDTMFSender (obj {| track_id := "audio0" |}); DtmfAddEventListener;
             InsertDTMF "1" 100 70; InsertDTMF "2#" 200 70].
Proof.
  destruct (tone_sender_is_made_once browser_createDTMFSender
              "1" None None "2#" (Some 200) None dialing
              {| pc_serial := 0; pc_config := {| iceServers := [] |};
                 localStreams := [microphone]; remoteStreams := [] |}
              microphone [] {| track_id := "audio0" |} []
              {| sender_track := {| track_id := "audio0" |} |}
              eq_refl eq_refl eq_refl eq_refl eq_refl) as (e' & Hrun & _ & Ht).
  exists e'. auto.
Defined.

Lemma teardown_is_idempotent_witness :
  sendDtmf browser_createDTMFSender "1" None None (env_of (_closeRTCPeerConnection dialing))
  = Normal tt (env_of (_closeRTCPeerConnection dialing)).
Proof.
  apply (proj2 (teardown_is_idempotent browser_createDTMFSender dialing)).
  discriminate.
Defined.


Lemma identity_is_fixed_witness :
  same_identity (this dialing) (this hung_up).
Proof.
  assert (Hrun : run browser_createDTMFSender
                     [Call_handleEvent (state_event "terminated" (Some "486 Busy Here"))]
                     dialing = Some hung_up) by (vm_compute; reflexivity).
  exact (proj2 (identity_is_fixed browser_createDTMFSender)
           [Call_handleEvent (state_event "terminated" (Some "486 Busy Here"))]
           dialing hung_up eq_refl Hrun).
Defined.


Lemma candidates_may_precede_the_offer_witness :
  exists e',
    run browser_createDTMFSender
        [Call_initOutgoing "id-1" "bob@example.com" (with_stream microphone);
         Fire_icecandidate (Some "candidate:1");
         Settle (CreateLocalSdp_offer "bob@example.com") (fulfilled (Some "v=0"))]
        (boot alice) = Some e'.
Proof.
  destruct (candidates_may_precede_the_offer browser_createDTMFSender "id-1"
              "bob@example.com" (with_stream microphone) microphone
              (Some "candidate:1") (Some "v=0") (boot alice)
              bob_has_at eq_refl eq_refl) as (e' & Hrun & _).
  exists e'. exact Hrun.
Defined.

Lemma remote_terminated_is_not_guarded_witness :
  exists e',
    _handleEvent (state_event "terminated" (Some "again")) hung_up = Normal tt e'
    /\ trace e'
       = trace hung_up
         ++ [Emit (stateChanged (_state (this hung_up)) (Some "terminated")
                     (with_reason (Some "again")));
             CallsDelete (_id (this hung_up))].
Proof.
  destruct (remote_terminated_is_not_guarded
              (state_event "terminated" (Some "again")) hung_up
              eq_refl eq_refl eq_refl eq_refl) as (e' & H & Ht & _).
  exists e'. auto.
Defined.
